(** * Study-optm: the scheduling core ([src/scheduler.ts])

    A shallow embedding of the three parts of [scheduler.ts] -- the array
    backed [MinHeap], the merge sort over subjects and the greedy daily
    allocator [generateSchedule] -- together with the properties that the
    specification states about them.

    Conventions of the embedding.

    - A JavaScript [number] that carries hours ([estimatedHours],
      [maxDailyHours], [hours], the heap priority) is the rational [Q] that
      the binary64 value denotes.  Two rationals are compared with [==],
      [<] and [<=] of [QArith].
    - [id] and [difficulty] are integers ([Z]).  The priority
      [diffDays / difficulty] is the rational quotient; a [difficulty] of
      zero, where JavaScript yields [Infinity], is outside the model (the
      documented range of [difficulty] is 1 to 5).  Only the statements
      about the order of allocation depend on the value of a priority.
    - A [Date] is its [getTime()] value: milliseconds since the epoch, in [Z].
      The string [examDate] of a subject is represented by the time stamp
      that [new Date(examDate)] yields.
    - A date string [YYYY-MM-DD] (the result of
      [toISOString().split('T')[0]]) is represented by the number of the UTC
      day it names, counted from the epoch; [toISODate] and [parseISODate]
      convert between time stamps and day numbers.
    - [remainingHoursMap] is a [gmap Z Q].
    - [generateSchedule] is embedded twice.  [OnHost.generateSchedule] takes
      a [Host], which gives the rounding of the arithmetic on [number] and
      the time zone of [getDate] and [setDate]; it is the program as a
      machine runs it.  The plain [generateSchedule] is the same program on
      the host [ideal], where no operation rounds and [setDate(getDate() + k)]
      moves a [Date] by [k] days of 24 hours; that the two agree there is
      proved below.  The statements that depend on rounding or on the length
      of a day are made about [OnHost.generateSchedule] and name what they
      ask of the host. *)

From Stdlib Require Import ZArith QArith Qminmax Qround Qabs Lia Lqa.
From stdpp Require Import gmap strings list fin_maps.
From Stdlib Require Import Sorted.

Local Open Scope Z_scope.

(** ** Data model *)

Record Subject := mkSubject {
  id : Z;
  name : string;
  difficulty : Z;
  examDate : Z;
  estimatedHours : Q
}.

Inductive ItemType := study | revision.

Record ScheduleItem := mkItem {
  date : Z;
  subjectId : Z;
  subjectName : string;
  hours : Q;
  type : ItemType
}.

(** Strict comparison of two numbers, [x < y] in the source. *)
Definition Qltb (x y : Q) : bool := negb (Qle_bool y x).

(** ** MinHeap *)

Section MinHeap.
Context {T : Type}.

(** One cell of [heap]: [{ priority, value }]. *)
Local Abbreviation Entry := (Q * T)%type.

(** [[h[i], h[j]] = [h[j], h[i]]]. *)
Definition swap (h : list Entry) (i j : nat) : list Entry :=
  match h !! i, h !! j with
  | Some a, Some b => <[j:=a]> (<[i:=b]> h)
  | _, _ => h
  end.

(** The loop of [heapifyUp]; [current] strictly decreases, so [current]
    rounds are enough. *)
Fixpoint heapifyUp_loop (fuel : nat) (h : list Entry) (current : nat)
  : list Entry :=
  match fuel with
  | O => h
  | S fuel' =>
      if (0 <? current)%nat then
        let parent := ((current - 1) / 2)%nat in
        match h !! current, h !! parent with
        | Some c, Some p =>
            if Qltb c.1 p.1
            then heapifyUp_loop fuel' (swap h current parent) parent
            else h
        | _, _ => h
        end
      else h
  end.

Definition heapifyUp (h : list Entry) (index : nat) : list Entry :=
  heapifyUp_loop index h index.

Definition insert (priority : Q) (value : T) (h : list Entry) : list Entry :=
  let h' := h ++ [(priority, value)] in
  heapifyUp h' (length h' - 1).

(** [smallest] after the two tests of [heapifyDown]. *)
Definition pick (h : list Entry) (smallest child : nat) : nat :=
  match h !! child, h !! smallest with
  | Some c, Some s => if Qltb c.1 s.1 then child else smallest
  | _, _ => smallest
  end.

(** The loop of [heapifyDown]; [current] strictly increases and stays
    below [length h], so [length h] rounds are enough. *)
Fixpoint heapifyDown_loop (fuel : nat) (h : list Entry) (current : nat)
  : list Entry :=
  match fuel with
  | O => h
  | S fuel' =>
      let left := (2 * current + 1)%nat in
      let right := (2 * current + 2)%nat in
      let smallest := pick h (pick h current left) right in
      if negb (smallest =? current)%nat
      then heapifyDown_loop fuel' (swap h current smallest) smallest
      else h
  end.

Definition heapifyDown (h : list Entry) (index : nat) : list Entry :=
  heapifyDown_loop (length h) h index.

(** [extractMin] returns the extracted value (or [None] for [null])
    together with the heap that is left.  [last] of a heap with two or more
    cells is never [None]; that branch is there for totality only. *)
Definition extractMin (h : list Entry) : option T * list Entry :=
  match h with
  | [] => (None, [])
  | [e] => (Some e.2, [])
  | e0 :: _ =>
      match last h with
      | Some l => (Some e0.2, heapifyDown (<[0%nat:=l]> (removelast h)) 0)
      | None => (None, h)
      end
  end.

Definition isEmpty (h : list Entry) : bool :=
  (length h =? 0)%nat.
End MinHeap.

(** ** Merge sort of the subjects *)

(** The test of [merge]: [d1 < d2 || (d1 === d2 && l.difficulty > r.difficulty)]. *)
Definition takesLeft (l r : Subject) : bool :=
  (examDate l <? examDate r)
  || ((examDate l =? examDate r) && (difficulty r <? difficulty l)).

Fixpoint merge (left : list Subject) : list Subject -> list Subject :=
  fix merge_right (right : list Subject) : list Subject :=
    match left, right with
    | l :: left', r :: right' =>
        if takesLeft l r
        then l :: merge left' right
        else r :: merge_right right'
    | _, [] => left
    | [], _ => right
    end.

(** [mergeSortSubjects] halves its argument until at most one element is
    left; a list of length [n] needs fewer than [n] nested calls. *)
Fixpoint mergeSort_rec (fuel : nat) (subjects : list Subject) : list Subject :=
  match fuel with
  | O => subjects
  | S fuel' =>
      if (length subjects <=? 1)%nat then subjects
      else
        let mid := (length subjects / 2)%nat in
        let left := mergeSort_rec fuel' (take mid subjects) in
        let right := mergeSort_rec fuel' (drop mid subjects) in
        merge left right
  end.

Definition mergeSortSubjects (subjects : list Subject) : list Subject :=
  mergeSort_rec (length subjects) subjects.

(** ** generateSchedule, with exact arithmetic and days of 24 hours *)

Definition MS_PER_DAY : positive := 86400000.

(** [t.toISOString().split('T')[0]]: the UTC day of a time stamp. *)
Definition toISODate (t : Z) : Z := t / Z.pos MS_PER_DAY.

(** [new Date(dateStr).getTime()]: midnight UTC of a day. *)
Definition parseISODate (d : Z) : Z := d * Z.pos MS_PER_DAY.

(** [t.setDate(t.getDate() + k)] where the time zone keeps its offset: [k]
    days of 24 hours.  [OnHost.setDate] is the general case. *)
Definition addDays (t k : Z) : Z := t + k * Z.pos MS_PER_DAY.

Definition totalDaysToPlan : nat := 30.

(** The state that [generateSchedule] threads through its outer loop. *)
Record RunState := mkRun {
  schedule : list ScheduleItem;
  remainingHoursMap : gmap Z Q;
  currentDate : Z
}.

(** [sortedSubjects.forEach(s => remainingHoursMap.set(s.id, s.estimatedHours))]. *)
Definition initRemaining (sortedSubjects : list Subject) : gmap Z Q :=
  foldl (fun m s => <[id s := estimatedHours s]> m) ∅ sortedSubjects.

(** [remainingHoursMap.get(k) || 0]. *)
Definition getRemaining (m : gmap Z Q) (k : Z) : Q := default 0%Q (m !! k).

(** [Math.max(1, Math.ceil((examDate - currentDate) / 86400000))]. *)
Definition diffDays (s : Subject) (now : Z) : Z :=
  Z.max 1 (Qceiling ((examDate s - now) # MS_PER_DAY)).

(** [diffDays / s.difficulty]. *)
Definition priorityOf (s : Subject) (now : Z) : Q :=
  (inject_Z (diffDays s now) / inject_Z (difficulty s))%Q.

(** The body of the [forEach] that fills the day's queue. *)
Definition enqueue (m : gmap Z Q) (now : Z)
    (pq : list (Q * Subject)) (s : Subject) : list (Q * Subject) :=
  let remaining := getRemaining m (id s) in
  if Qltb 0 remaining then
    if 0 <? diffDays s now then insert (priorityOf s now) s pq else pq
  else pq.

Definition buildQueue (sortedSubjects : list Subject) (m : gmap Z Q) (now : Z)
  : list (Q * Subject) :=
  foldl (enqueue m now) [] sortedSubjects.

(** The body of [[1, 3, 7].forEach(daysLater => ...)]. *)
Definition addRevision (now : Z) (subject : Subject)
    (sched : list ScheduleItem) (daysLater : Z) : list ScheduleItem :=
  let revDate := addDays now daysLater in
  let revDateStr := toISODate revDate in
  if parseISODate revDateStr <? examDate subject
  then sched ++ [mkItem revDateStr (id subject) (name subject) (1 # 2) revision]
  else sched.

Definition addRevisions (now : Z) (subject : Subject)
    (sched : list ScheduleItem) : list ScheduleItem :=
  foldl (addRevision now subject) sched [1; 3; 7].

(** [Math.min(2, remaining, maxDailyHours - hoursAllocatedToday)], the
    difference not rounded.  [OnHost.chunkOf] rounds it. *)
Definition chunkOf (remaining maxDailyHours hoursAllocatedToday : Q) : Q :=
  Qmin 2 (Qmin remaining (maxDailyHours - hoursAllocatedToday)).

(** The greedy [while] loop of one day.  Every round extracts one entry, so
    [length pq] rounds are enough.  The result is the schedule, the
    remaining-hours map and [hoursAllocatedToday].  The queue is not empty
    when [extractMin] is called, so its [None] branch is never taken; the
    extracted subject comes from the sorted list, so its id is a key of the
    map and [getRemaining] agrees with [remainingHoursMap.get(subject.id)!].
    [remaining - chunk] and [hoursAllocatedToday + chunk] are not rounded
    here; [OnHost.allocate_loop] rounds them. *)
Fixpoint allocate_loop (fuel : nat) (maxDailyHours : Q) (now : Z)
    (pq : list (Q * Subject))
    (sched : list ScheduleItem) (m : gmap Z Q) (hoursAllocatedToday : Q)
  : list ScheduleItem * gmap Z Q * Q :=
  match fuel with
  | O => (sched, m, hoursAllocatedToday)
  | S fuel' =>
      if negb (isEmpty pq) && Qltb hoursAllocatedToday maxDailyHours then
        match extractMin pq with
        | (Some subject, pq') =>
            let remaining := getRemaining m (id subject) in
            let chunk := chunkOf remaining maxDailyHours hoursAllocatedToday in
            if Qltb 0 chunk then
              let sched1 :=
                sched ++ [mkItem (toISODate now) (id subject) (name subject)
                                 chunk study] in
              allocate_loop fuel' maxDailyHours now pq'
                (addRevisions now subject sched1)
                (<[id subject := (remaining - chunk)%Q]> m)
                (hoursAllocatedToday + chunk)%Q
            else
              allocate_loop fuel' maxDailyHours now pq' sched m
                hoursAllocatedToday
        | (None, _) => (sched, m, hoursAllocatedToday)
        end
      else (sched, m, hoursAllocatedToday)
  end.

(** One round of the outer [for] loop. *)
Definition dayStep (sortedSubjects : list Subject) (maxDailyHours : Q)
    (st : RunState) : RunState :=
  let now := currentDate st in
  let pq := buildQueue sortedSubjects (remainingHoursMap st) now in
  let '(sched, m, _) :=
    allocate_loop (length pq) maxDailyHours now pq
      (schedule st) (remainingHoursMap st) 0%Q in
  mkRun sched m (addDays now 1).

(** [n] rounds of the outer loop. *)
Fixpoint days_loop (n : nat) (sortedSubjects : list Subject)
    (maxDailyHours : Q) (st : RunState) : RunState :=
  match n with
  | O => st
  | S n' =>
      days_loop n' sortedSubjects maxDailyHours
        (dayStep sortedSubjects maxDailyHours st)
  end.

(** The state in which the outer loop starts. *)
Definition initState (subjects : list Subject) (startDate : Z) : RunState :=
  mkRun [] (initRemaining (mergeSortSubjects subjects)) startDate.

(** The state after [n] simulated days. *)
Definition runDays (n : nat) (subjects : list Subject) (startDate : Z)
    (maxDailyHours : Q) : RunState :=
  days_loop n (mergeSortSubjects subjects) maxDailyHours
    (initState subjects startDate).

Definition generateSchedule (subjects : list Subject) (startDate : Z)
    (maxDailyHours : Q) : list ScheduleItem :=
  schedule (runDays totalDaysToPlan subjects startDate maxDailyHours).

(** ** The host: the arithmetic of [number] and the time zone *)

(** [scheduler.ts] takes two things from the machine it runs on.  The
    results of [+], [-] and [/] on values of type [number] are rounded to
    binary64, and [getDate] and [setDate] read and write a [Date] in the
    local time zone, while [toISOString] prints it in UTC.  A host gives
    both: [rnd] is the rounding applied to the exact result of an arithmetic
    operation, and [localTZA t isUTC] is ECMAScript's [LocalTZA], the offset
    of local time from UTC in milliseconds, at the UTC time [t] when [isUTC]
    and at the local time [t] otherwise.  Comparisons, [Math.min],
    [Math.max] and [Math.ceil] are exact on every host. *)
Record Host := mkHost {
  rnd : Q -> Q;
  localTZA : Z -> bool -> Z
}.

(** The integer nearest to [x]; of two nearest integers the even one. *)
Definition roundHalfEven (x : Q) : Z :=
  let f := Qfloor x in
  match (x - inject_Z f ?= 1 # 2)%Q with
  | Lt => f
  | Gt => f + 1
  | Eq => if Z.even f then f else f + 1
  end.

(** Rounding to the nearest binary64 value, ties to even: a significand of
    53 bits above the least subnormal [2 ^ -1074].  Finite values only: a
    result beyond the largest binary64 value, where JavaScript yields
    [Infinity], is outside the model. *)
Definition binary64 (q : Q) : Q :=
  let scaled := (q * inject_Z (2 ^ 1074))%Q in
  let s := Z.max 0 (Z.log2 (Qfloor (Qabs scaled)) - 52) in
  let significand := roundHalfEven (scaled / inject_Z (2 ^ s)) in
  Qred (inject_Z (significand * 2 ^ s) / inject_Z (2 ^ 1074)).

(** A time zone that keeps one offset from UTC. *)
Definition fixedOffset (offset : Z) : Z -> bool -> Z := fun _ _ => offset.

(** New York around the start of daylight saving time in 2026: five hours
    behind UTC until 2026-03-08T07:00Z, four hours behind from then on.  A
    local time in the hour that the clocks skip is read with the offset
    before the change. *)
Definition newYork2026 : Z -> bool -> Z := fun t isUTC =>
  let change := parseISODate 20520 + 7 * 3600000 in
  if isUTC
  then (if t <? change then -18000000 else -14400000)
  else (if t <? change - 14400000 then -18000000 else -14400000).

(** The host of the definitions above: no rounding, and local time is UTC. *)
Definition ideal : Host := mkHost (fun q => q) (fixedOffset 0).

(** [generateSchedule] as a host runs it.  The definitions follow the source
    line by line like the ones above; they differ from them in the three
    places where the source calls on the host: [setDate], the results of
    arithmetic, and with them the dates and hours of the plan. *)
Module OnHost.
Section WithHost.
Variable h : Host.

(** [t.setDate(t.getDate() + k)]: the local time of [t] moved by [k]
    calendar days and read back as a UTC time. *)
Definition setDate (t k : Z) : Z :=
  let local := t + localTZA h t true in
  let moved := local + k * Z.pos MS_PER_DAY in
  moved - localTZA h moved false.

(** [Math.max(1, Math.ceil((examDate.getTime() - currentDate.getTime())
    / (1000 * 60 * 60 * 24)))]. *)
Definition diffDays (s : Subject) (now : Z) : Z :=
  Z.max 1
    (Qceiling
       (rnd h (rnd h (inject_Z (examDate s) - inject_Z now)
               / inject_Z (Z.pos MS_PER_DAY)))).

(** [diffDays / s.difficulty]. *)
Definition priorityOf (s : Subject) (now : Z) : Q :=
  rnd h (inject_Z (diffDays s now) / inject_Z (difficulty s)).

Definition enqueue (m : gmap Z Q) (now : Z)
    (pq : list (Q * Subject)) (s : Subject) : list (Q * Subject) :=
  let remaining := getRemaining m (id s) in
  if Qltb 0 remaining then
    if 0 <? diffDays s now then insert (priorityOf s now) s pq else pq
  else pq.

Definition buildQueue (sortedSubjects : list Subject) (m : gmap Z Q) (now : Z)
  : list (Q * Subject) :=
  foldl (enqueue m now) [] sortedSubjects.

Definition addRevision (now : Z) (subject : Subject)
    (sched : list ScheduleItem) (daysLater : Z) : list ScheduleItem :=
  let revDate := setDate now daysLater in
  let revDateStr := toISODate revDate in
  if parseISODate revDateStr <? examDate subject
  then sched ++ [mkItem revDateStr (id subject) (name subject) (1 # 2) revision]
  else sched.

Definition addRevisions (now : Z) (subject : Subject)
    (sched : list ScheduleItem) : list ScheduleItem :=
  foldl (addRevision now subject) sched [1; 3; 7].

(** [Math.min(2, remaining, maxDailyHours - hoursAllocatedToday)]. *)
Definition chunkOf (remaining maxDailyHours hoursAllocatedToday : Q) : Q :=
  Qmin 2 (Qmin remaining (rnd h (maxDailyHours - hoursAllocatedToday))).

Fixpoint allocate_loop (fuel : nat) (maxDailyHours : Q) (now : Z)
    (pq : list (Q * Subject))
    (sched : list ScheduleItem) (m : gmap Z Q) (hoursAllocatedToday : Q)
  : list ScheduleItem * gmap Z Q * Q :=
  match fuel with
  | O => (sched, m, hoursAllocatedToday)
  | S fuel' =>
      if negb (isEmpty pq) && Qltb hoursAllocatedToday maxDailyHours then
        match extractMin pq with
        | (Some subject, pq') =>
            let remaining := getRemaining m (id subject) in
            let chunk := chunkOf remaining maxDailyHours hoursAllocatedToday in
            if Qltb 0 chunk then
              let sched1 :=
                sched ++ [mkItem (toISODate now) (id subject) (name subject)
                                 chunk study] in
              allocate_loop fuel' maxDailyHours now pq'
                (addRevisions now subject sched1)
                (<[id subject := rnd h (remaining - chunk)]> m)
                (rnd h (hoursAllocatedToday + chunk))
            else
              allocate_loop fuel' maxDailyHours now pq' sched m
                hoursAllocatedToday
        | (None, _) => (sched, m, hoursAllocatedToday)
        end
      else (sched, m, hoursAllocatedToday)
  end.

Definition dayStep (sortedSubjects : list Subject) (maxDailyHours : Q)
    (st : RunState) : RunState :=
  let now := currentDate st in
  let pq := buildQueue sortedSubjects (remainingHoursMap st) now in
  let '(sched, m, _) :=
    allocate_loop (length pq) maxDailyHours now pq
      (schedule st) (remainingHoursMap st) 0%Q in
  mkRun sched m (setDate now 1).

Fixpoint days_loop (n : nat) (sortedSubjects : list Subject)
    (maxDailyHours : Q) (st : RunState) : RunState :=
  match n with
  | O => st
  | S n' =>
      days_loop n' sortedSubjects maxDailyHours
        (dayStep sortedSubjects maxDailyHours st)
  end.

Definition runDays (n : nat) (subjects : list Subject) (startDate : Z)
    (maxDailyHours : Q) : RunState :=
  days_loop n (mergeSortSubjects subjects) maxDailyHours
    (initState subjects startDate).

Definition generateSchedule (subjects : list Subject) (startDate : Z)
    (maxDailyHours : Q) : list ScheduleItem :=
  schedule (runDays totalDaysToPlan subjects startDate maxDailyHours).

(** The revision items that follow a [study] item of [s] pushed at [now],
    and everything one step of the greedy loop appends to the schedule. *)
Definition revisionsFor (now : Z) (s : Subject) : list ScheduleItem :=
  addRevisions now s [].

Definition block (now : Z) (s : Subject) (chunk : Q) : list ScheduleItem :=
  mkItem (toISODate now) (id s) (name s) chunk study :: revisionsFor now s.
End WithHost.
End OnHost.

(** * Vocabulary of the specification *)

(** The order the sort establishes: exam date ascending, and on equal exam
    dates difficulty descending. *)
Definition subjectLe (a b : Subject) : Prop :=
  examDate a < examDate b
  \/ (examDate a = examDate b /\ difficulty b <= difficulty a).

(** Two subjects tie when the comparison of [merge] cannot tell them apart. *)
Definition sameKey (a b : Subject) : bool :=
  (examDate a =? examDate b) && (difficulty a =? difficulty b).

Global Instance ItemType_eq_dec : EqDecision ItemType.
Proof. solve_decision. Defined.

(** The [study] item that one allocator step pushes. *)
Definition studyItem (now : Z) (s : Subject) (chunk : Q) : ScheduleItem :=
  mkItem (toISODate now) (id s) (name s) chunk study.

(** The revision items that follow a [study] item of [s] pushed at [now]. *)
Definition revisionsFor (now : Z) (s : Subject) : list ScheduleItem :=
  addRevisions now s [].

(** Everything one allocator step appends to the schedule. *)
Definition block (now : Z) (s : Subject) (chunk : Q) : list ScheduleItem :=
  studyItem now s chunk :: revisionsFor now s.

(** The revision item of a chunk studied on [day], at the offset [k]: it
    exists when day [day + k] starts before the exam. *)
Definition revisionAt (day : Z) (s : Subject) (k : Z) : list ScheduleItem :=
  if parseISODate (day + k) <? examDate s
  then [mkItem (day + k) (id s) (name s) (1 # 2) revision]
  else [].

(** The items of one chunk in terms of calendar days: the study item on
    [day] and its revisions one, three and seven days later. *)
Definition blockOn (ev : Z * Subject * Q) : list ScheduleItem :=
  let '(day, s, chunk) := ev in
  mkItem day (id s) (name s) chunk study
  :: revisionAt day s 1 ++ revisionAt day s 3 ++ revisionAt day s 7.

Definition sumHours (l : list ScheduleItem) : Q :=
  foldr (fun it acc => (hours it + acc)%Q) 0%Q l.

(** Study hours that a schedule places on the day [d]. *)
Definition studyOn (d : Z) (l : list ScheduleItem) : Q :=
  sumHours (filter (fun it => type it = study /\ date it = d) l).

(** Study hours that a schedule gives to the subject id [k]. *)
Definition studyFor (k : Z) (l : list ScheduleItem) : Q :=
  sumHours (filter (fun it => type it = study /\ subjectId it = k) l).

(** The value of [hoursAllocatedToday] when the day that starts in the state
    [st] is over. *)
Definition hoursAllocatedOn (sortedSubjects : list Subject)
    (maxDailyHours : Q) (st : RunState) : Q :=
  let pq := buildQueue sortedSubjects (remainingHoursMap st) (currentDate st) in
  (allocate_loop (length pq) maxDailyHours (currentDate st) pq
     (schedule st) (remainingHoursMap st) 0%Q).2.

(** What one day adds to the plan when the input is a harder subject [H]
    and an easier subject [E]: first the one chunk of [H], then the one
    chunk of [E] from the capacity that is left. *)
Definition pairDay (H E : Subject) (maxDailyHours : Q) (st : RunState)
  : list ScheduleItem :=
  let now := currentDate st in
  let rH := getRemaining (remainingHoursMap st) (id H) in
  let rE := getRemaining (remainingHoursMap st) (id E) in
  let cH := chunkOf rH maxDailyHours 0 in
  let aH := if Qltb 0 rH then (0 + cH)%Q else 0%Q in
  (if Qltb 0 rH then block now H cH else [])
  ++ (if Qltb 0 rE && Qltb aH maxDailyHours
      then block now E (chunkOf rE maxDailyHours aH) else []).

(** The reading of the claim about two subjects of unequal difficulty: the
    easier subject [E] receives a study chunk on a day only after the hours
    of the harder subject [H] or the capacity of that day are used up. *)
Definition easierWaits (H E : Subject) (maxDailyHours : Q)
    (sched : list ScheduleItem) : Prop :=
  forall pre it post,
    sched = pre ++ it :: post ->
    type it = study -> subjectId it = id E ->
    (estimatedHours H <= studyFor (id H) pre)%Q
    \/ (maxDailyHours <= studyOn (date it) pre)%Q.

(** A whole or half unit: an integer multiple of [0.5]. *)
Definition HalfUnit (q : Q) : Prop := exists n : Z, (q == n # 2)%Q.

(** Renaming of a subject id in an item of a plan. *)
Definition renameId (from to : Z) (it : ScheduleItem) : ScheduleItem :=
  if subjectId it =? from
  then mkItem (date it) to (subjectName it) (hours it) (type it)
  else it.

(** ** Example inputs *)

Module Examples.
Definition day0 : Z := parseISODate 0.

(** Two entries under one id, the later exam with the larger estimate. *)
Definition shortB : Subject := mkSubject 1 "b" 3 (parseISODate 10) 2.
Definition longA : Subject := mkSubject 1 "a" 3 (parseISODate 20) 10.

(** An entry without workload that shares its id with a loaded one. *)
Definition idle : Subject := mkSubject 1 "idle" 3 (parseISODate 10) 0.
Definition loaded : Subject := mkSubject 1 "loaded" 3 (parseISODate 20) 5.

(** Two entries of two hours each, under one id and under two ids. *)
Definition twin1 : Subject := mkSubject 1 "t1" 3 (parseISODate 20) 2.
Definition twin2 : Subject := mkSubject 1 "t2" 3 (parseISODate 20) 2.
Definition twin2' : Subject := mkSubject 2 "t2" 3 (parseISODate 20) 2.

(** A subject of nine hours whose exam lies before the start of the plan. *)
Definition late : Subject := mkSubject 1 "late" 2 (parseISODate 0) 9.

(** One subject of four hours, ten days before its exam. *)
Definition solo : Subject := mkSubject 1 "A" 5 (parseISODate 10) 4.

(** Same exam, same workload, difficulty 5 against difficulty 1. *)
Definition hard : Subject := mkSubject 1 "H" 5 (parseISODate 10) 10.
Definition easy : Subject := mkSubject 2 "E" 1 (parseISODate 10) 10.

(** A workload that is no multiple of half an hour. *)
Definition fractional : Subject :=
  mkSubject 1 "f" 3 (parseISODate 10) (3 # 10).

(** Hosts with binary64 numbers: in UTC, in Kolkata (UTC+5:30, no daylight
    saving time) and in New York. *)
Definition utcHost : Host := mkHost binary64 (fixedOffset 0).
Definition kolkataHost : Host := mkHost binary64 (fixedOffset 19800000).
Definition newYorkHost : Host := mkHost binary64 newYork2026.

(** 2026-03-08T00:30Z: in New York half past seven on the evening before
    the clocks are set forward. *)
Definition eveOfChange : Z := parseISODate 20520 + 1800000.

(** Ten hours and two hours of work for an exam on 2026-04-17. *)
Definition spring : Subject := mkSubject 1 "S" 3 (parseISODate 20560) 10.
Definition brief : Subject := mkSubject 1 "B" 3 (parseISODate 20560) 2.

(** Four subjects in the order of their exams; the first has the binary64
    value of [0.3] hours. *)
Definition uneven : list Subject :=
  [mkSubject 1 "a" 1 (parseISODate 1) (binary64 (3 # 10));
   mkSubject 2 "b" 1 (parseISODate 2) 2;
   mkSubject 3 "c" 1 (parseISODate 3) 2;
   mkSubject 4 "d" 1 (parseISODate 4) 5].

(** One and a half hours of work, to be done at [0.4] hours a day. *)
Definition sesqui : Subject := mkSubject 1 "q" 3 (parseISODate 40) (3 # 2).

(** One of several hard subjects of a hundred hours each. *)
Definition crowd (i : Z) : Subject :=
  mkSubject i "crowd" 5 (parseISODate 6) 100.
End Examples.

(** ** Invariants and predicates used below *)

(** The invariant behind the capacity bound for the day [d]: the study hours
    on [d] never exceed the capacity; while day [d] is being planned they
    equal [hoursAllocatedToday], and before that they are zero. *)
Definition capacityInv (maxDailyHours : Q) (d : Z)
    (now : Z) (sched : list ScheduleItem) (m : gmap Z Q) (a : Q) : Prop :=
  (studyOn d sched <= maxDailyHours)%Q
  /\ (toISODate now = d -> (studyOn d sched == a)%Q)
  /\ (toISODate now < d -> (studyOn d sched == 0)%Q).

(** [s] is the only entry of the input that carries its id. *)
Definition idUnshared (subjects : list Subject) (s : Subject) : Prop :=
  forall s', s' ∈ subjects -> id s' = id s -> s' = s.

(** An item with positive hours. *)
Definition positiveHours (it : ScheduleItem) : Prop := (0 < hours it)%Q.

(** The study hours given out under the id [k] and the hours still
    remaining for [k] always add up to the value [r0] the map started with,
    and a budget that starts non-negative stays non-negative. *)
Definition budgetInv (k : Z) (r0 : Q)
    (now : Z) (sched : list ScheduleItem) (m : gmap Z Q) (a : Q) : Prop :=
  (studyFor k sched + getRemaining m k == r0)%Q
  /\ ((0 <= r0)%Q -> (0 <= getRemaining m k)%Q).

(** What the claim asks of every item, without the half-unit part. *)
Definition hoursInRange (it : ScheduleItem) : Prop :=
  (0 < hours it)%Q
  /\ (type it = study -> (hours it <= 2)%Q)
  /\ (type it = revision -> hours it = (1 # 2)%Q).

(** What the claim asks of a revision item: half an hour, for a subject of
    the input, on a day that starts before that subject's exam; where the
    exam date is a calendar day [E] (midnight UTC), on a day before [E]. *)
Definition revisionBeforeExam (subjects : list Subject) (it : ScheduleItem)
  : Prop :=
  type it = revision ->
  hours it = (1 # 2)%Q
  /\ exists s, s ∈ subjects /\ subjectId it = id s /\ subjectName it = name s
               /\ parseISODate (date it) < examDate s
               /\ forall E, examDate s = parseISODate E -> date it < E.

(** ** What a statement asks of the host *)

(** The time zone keeps its offset while the plan is made: every [setDate]
    of the run -- from each of the thirty days of the loop by one day, and
    by one, three and seven days for the revisions -- moves the clock by
    that many days of 24 hours. *)
Definition steady (h : Host) (startDate : Z) : Prop :=
  forall d k, 0 <= d < Z.of_nat totalDaysToPlan -> k = 1 \/ k = 3 \/ k = 7 ->
    OnHost.setDate h (addDays startDate d) k = addDays startDate (d + k).

(** The hours that binary64 arithmetic keeps exact in this program: the
    whole and half units up to [2 ^ 52]. *)
Definition hoursLimit : Q := 4503599627370496.

Definition onGrid (q : Q) : Prop := HalfUnit q /\ (Qabs q <= hoursLimit)%Q.

(** The arithmetic of the host does not round a result on the grid. *)
Definition exactOnGrid (h : Host) : Prop :=
  forall q, onGrid q -> (rnd h q == q)%Q.

(** The invariant of a run on the grid: every remaining-hours value and
    [hoursAllocatedToday] are on the grid. *)
Definition gridInv (m : gmap Z Q) (a : Q) : Prop :=
  (forall k, onGrid (getRemaining m k)) /\ onGrid a /\ (0 <= a)%Q.

(** ** The heap order *)

(** The index of the parent cell, [Math.floor((i - 1) / 2)]. *)
Definition parent (i : nat) : nat := ((i - 1) / 2)%nat.

(** The order that [MinHeap] keeps: no cell is more urgent than its parent. *)
Definition isHeap {T} (h : list (Q * T)) : Prop :=
  forall j c p, (0 < j)%nat ->
    h !! j = Some c -> h !! parent j = Some p -> (p.1 <= c.1)%Q.

(** The heap order with one hole at [c] on the way up: every cell but [c]
    respects its parent, and the children of [c] respect the parent of [c]. *)
Definition heapUpTo {T} (h : list (Q * T)) (c : nat) : Prop :=
  (forall j x p, (0 < j)%nat -> j <> c ->
     h !! j = Some x -> h !! parent j = Some p -> (p.1 <= x.1)%Q)
  /\ (forall j x g, (0 < j)%nat -> (0 < c)%nat -> parent j = c ->
       h !! j = Some x -> h !! parent c = Some g -> (g.1 <= x.1)%Q).

(** The heap order with one hole at [c] on the way down: every cell whose
    parent is not [c] respects its parent, and the children of [c] respect
    the parent of [c]. *)
Definition heapDownFrom {T} (h : list (Q * T)) (c : nat) : Prop :=
  (forall j x p, (0 < j)%nat -> parent j <> c ->
     h !! j = Some x -> h !! parent j = Some p -> (p.1 <= x.1)%Q)
  /\ (forall j x g, (0 < j)%nat -> (0 < c)%nat -> parent j = c ->
       h !! j = Some x -> h !! parent c = Some g -> (g.1 <= x.1)%Q).

(** [extractMin] called until it returns [null]: the values in the order in
    which they leave the heap. *)
Fixpoint drain {T} (fuel : nat) (h : list (Q * T)) : list T :=
  match fuel with
  | O => []
  | S fuel' =>
      match extractMin h with
      | (Some v, h') => v :: drain fuel' h'
      | (None, _) => []
      end
  end.

(** A heap filled from a list of cells, one [insert] after the other. *)
Definition fromList {T} (l : list (Q * T)) : list (Q * T) :=
  foldl (fun h e => insert e.1 e.2 h) [] l.

(** * Properties *)

(** ** The merge sort *)

Lemma exists_last_or_nil {A} (l : list A) :
  l = [] \/ exists l' x, l = l' ++ [x].
Proof.
  induction l as [|x l IH] using rev_ind; [by left|right]. by eexists _, _.
Qed.

Lemma filter_none {A} (P : A -> Prop) `{!forall x, Decision (P x)} (l : list A) :
  Forall (fun x => ~ P x) l -> filter P l = [].
Proof.
  induction 1 as [|x l Hx _ IH]; [done|].
  by rewrite filter_cons_False.
Qed.

Lemma takesLeft_true l r : takesLeft l r = true -> subjectLe l r.
Proof. unfold takesLeft, subjectLe. lia. Qed.

Lemma takesLeft_false l r : takesLeft l r = false -> subjectLe r l.
Proof. unfold takesLeft, subjectLe. lia. Qed.

Lemma subjectLe_trans a b c : subjectLe a b -> subjectLe b c -> subjectLe a c.
Proof. unfold subjectLe. lia. Qed.

Lemma merge_nil_r left : merge left [] = left.
Proof. by destruct left. Qed.

Lemma merge_cons l left r right :
  merge (l :: left) (r :: right) =
  if takesLeft l r then l :: merge left (r :: right)
  else r :: merge (l :: left) right.
Proof. reflexivity. Qed.

Lemma merge_Permutation left right : merge left right ≡ₚ left ++ right.
Proof.
  revert right. induction left as [|l left IHl]; intros right.
  - by destruct right.
  - induction right as [|r right IHr].
    + by rewrite merge_nil_r, app_nil_r.
    + rewrite merge_cons. destruct (takesLeft l r).
      * by rewrite IHl.
      * rewrite IHr. by rewrite <- Permutation_middle.
Qed.

Lemma merge_StronglySorted left right :
  StronglySorted subjectLe left -> StronglySorted subjectLe right ->
  StronglySorted subjectLe (merge left right).
Proof.
  revert right. induction left as [|l left IHl]; intros right Hl Hr.
  - by destruct right.
  - induction right as [|r right IHr].
    + by rewrite merge_nil_r.
    + rewrite merge_cons.
      apply StronglySorted_inv in Hl as [Hl1 Hl2].
      pose proof Hr as Hr0. apply StronglySorted_inv in Hr0 as [Hr1 Hr2].
      destruct (takesLeft l r) eqn:E.
      * apply takesLeft_true in E. constructor; [by apply IHl|].
        rewrite merge_Permutation. apply Forall_app. split; [done|].
        constructor; [done|].
        eapply Forall_impl; [exact Hr2|]. intros x Hx.
        by eapply subjectLe_trans.
      * apply takesLeft_false in E. constructor.
        { by apply IHr. }
        rewrite merge_Permutation. apply Forall_app. split; [|done].
        constructor; [done|].
        eapply Forall_impl; [exact Hl2|]. intros x Hx.
        by eapply subjectLe_trans.
Qed.

(** On a tie [merge] takes the element of the right run, so the tied
    elements of the right run come out before those of the left run. *)
Lemma merge_filter_sameKey k left right :
  StronglySorted subjectLe right ->
  filter (fun s => sameKey k s = true) (merge left right) =
  filter (fun s => sameKey k s = true) right
  ++ filter (fun s => sameKey k s = true) left.
Proof.
  revert right. induction left as [|l left IHl]; intros right Hr.
  - destruct right; by rewrite ?app_nil_r.
  - induction right as [|r right IHr].
    + by rewrite merge_nil_r.
    + rewrite merge_cons.
      pose proof Hr as Hr0. apply StronglySorted_inv in Hr0 as [Hr1 Hr2].
      destruct (takesLeft l r) eqn:E.
      * rewrite filter_cons. rewrite IHl by done.
        rewrite (filter_cons _ l left).
        destruct (decide (sameKey k l = true)) as [Hk|Hk]; [|done].
        assert (filter (fun s => sameKey k s = true) (r :: right) = []) as ->; [|done].
        apply filter_none, Forall_forall. intros x Hx.
        assert (subjectLe r x) as Hrx.
        { apply elem_of_cons in Hx as [->|Hx].
          - unfold subjectLe; lia.
          - by eapply Forall_forall in Hr2. }
        unfold takesLeft in E. unfold sameKey in *. unfold subjectLe in Hrx. lia.
      * rewrite filter_cons. rewrite IHr by done.
        rewrite (filter_cons _ r right).
        by destruct (decide (sameKey k r = true)).
Qed.

Section MergeSortRec.
(** Statements about [mergeSort_rec] hold whenever the fuel covers the
    length of the list, which [mergeSortSubjects] guarantees. *)

Lemma halves_shorter (l : list Subject) :
  (length l <=? 1)%nat = false ->
  (length (take (length l / 2) l) < length l)%nat
  /\ (length (drop (length l / 2) l) < length l)%nat
  /\ (0 < length l / 2)%nat.
Proof.
  intros H. apply Nat.leb_gt in H.
  rewrite length_take, length_drop.
  assert (length l / 2 < length l)%nat by (apply Nat.div_lt; lia).
  assert (0 < length l / 2)%nat by (apply Nat.div_str_pos; lia).
  lia.
Qed.

Lemma mergeSort_rec_Permutation fuel l : mergeSort_rec fuel l ≡ₚ l.
Proof.
  revert l. induction fuel as [|fuel IH]; intros l; cbn [mergeSort_rec]; [done|].
  destruct (length l <=? 1)%nat; [done|].
  rewrite merge_Permutation, !IH. by rewrite take_drop.
Qed.

Lemma mergeSort_rec_StronglySorted fuel l :
  (length l <= fuel)%nat -> StronglySorted subjectLe (mergeSort_rec fuel l).
Proof.
  revert l. induction fuel as [|fuel IH]; intros l Hlen; cbn [mergeSort_rec].
  { destruct l; [constructor|simpl in Hlen; lia]. }
  destruct (length l <=? 1)%nat eqn:E.
  { apply Nat.leb_le in E. destruct l as [|x [|y l]]; simpl in E; try lia.
    - constructor.
    - repeat constructor. }
  destruct (halves_shorter l E) as (H1 & H2 & _).
  apply merge_StronglySorted; apply IH; lia.
Qed.

Lemma mergeSort_rec_filter_sameKey k fuel l :
  (length l <= fuel)%nat ->
  filter (fun s => sameKey k s = true) (mergeSort_rec fuel l) =
  reverse (filter (fun s => sameKey k s = true) l).
Proof.
  revert l. induction fuel as [|fuel IH]; intros l Hlen; cbn [mergeSort_rec].
  { destruct l; [done|simpl in Hlen; lia]. }
  destruct (length l <=? 1)%nat eqn:E.
  { apply Nat.leb_le in E. destruct l as [|x [|y l]]; simpl in E; try lia.
    - done.
    - rewrite filter_cons. by destruct (decide _). }
  destruct (halves_shorter l E) as (H1 & H2 & _).
  rewrite merge_filter_sameKey by (apply mergeSort_rec_StronglySorted; lia).
  rewrite !IH by lia.
  rewrite <- reverse_app, <- filter_app. by rewrite take_drop.
Qed.

(** More fuel than the length of the list changes nothing. *)
Lemma mergeSort_rec_fuel fuel l :
  (length l <= fuel)%nat -> mergeSort_rec fuel l = mergeSort_rec (length l) l.
Proof.
  revert l. induction fuel as [fuel IH] using lt_wf_ind. intros l Hlen.
  destruct fuel as [|fuel].
  { destruct l; [done|simpl in Hlen; lia]. }
  destruct l as [|x l]; [reflexivity|].
  change (length (x :: l)) with (S (length l)). cbn [mergeSort_rec].
  destruct (length (x :: l) <=? 1)%nat eqn:E; [done|].
  destruct (halves_shorter (x :: l) E) as (H1 & H2 & _).
  set (mid := (length (x :: l) / 2)%nat) in *.
  cbn [length] in Hlen, H1, H2.
  rewrite (IH fuel) by lia.
  rewrite (IH fuel (ltac:(lia)) (drop _ _)) by lia.
  rewrite (IH (length l)) by lia.
  rewrite (IH (length l) (ltac:(lia)) (drop _ _)) by lia.
  done.
Qed.
End MergeSortRec.

(** ** The heap *)

Section MinHeapFacts.
Context {T : Type}.
Implicit Types (h : list (Q * T)) (i j current : nat).

Lemma swap_Permutation h i j : swap h i j ≡ₚ h.
Proof.
  unfold swap. destruct (h !! i) as [a|] eqn:Hi; [|reflexivity].
  destruct (h !! j) as [b|] eqn:Hj; [|reflexivity].
  by apply Permutation_insert_swap.
Qed.

Lemma swap_length h i j : length (swap h i j) = length h.
Proof. apply Permutation_length, swap_Permutation. Qed.

Lemma heapifyUp_loop_Permutation fuel h current :
  heapifyUp_loop fuel h current ≡ₚ h.
Proof.
  revert h current. induction fuel as [|fuel IH]; intros h current; [done|].
  cbn [heapifyUp_loop]. destruct (0 <? current)%nat; [|done].
  destruct (h !! current) as [c|]; [|done].
  destruct (h !! ((current - 1) / 2)%nat) as [p|]; [|done].
  destruct (Qltb c.1 p.1); [|done].
  by rewrite IH, swap_Permutation.
Qed.

Lemma heapifyDown_loop_Permutation fuel h current :
  heapifyDown_loop fuel h current ≡ₚ h.
Proof.
  revert h current. induction fuel as [|fuel IH]; intros h current; [done|].
  cbn [heapifyDown_loop]. destruct (negb _); [|done].
  by rewrite IH, swap_Permutation.
Qed.

Lemma insert_Permutation p v h : insert p v h ≡ₚ (p, v) :: h.
Proof.
  unfold insert, heapifyUp. rewrite heapifyUp_loop_Permutation.
  by rewrite Permutation_app_comm.
Qed.

Lemma extractMin_None h h' : extractMin h = (None, h') -> h = [].
Proof.
  destruct h as [|e0 [|e1 h]]; [done..|]. unfold extractMin.
  destruct (last (e0 :: e1 :: h)) as [l|] eqn:Hl; [done|].
  by apply last_None in Hl.
Qed.

(** [extractMin] on a heap of two or more cells: the last cell moves to
    the root and sifts down. *)
Lemma extractMin_snoc (e0 : Q * T) (rest : list (Q * T)) (l : Q * T) :
  extractMin (e0 :: rest ++ [l]) = (Some e0.2, heapifyDown (l :: rest) 0).
Proof.
  unfold extractMin.
  change (e0 :: rest ++ [l]) with ((e0 :: rest) ++ [l]).
  rewrite last_snoc, removelast_last.
  destruct rest; reflexivity.
Qed.

Lemma extractMin_Some h v h' :
  extractMin h = (Some v, h') -> exists p, h ≡ₚ (p, v) :: h'.
Proof.
  destruct h as [|[p0 v0] rest]; [done|].
  destruct (exists_last_or_nil rest) as [->|(rest' & l & ->)].
  - intros [= <- <-]. by exists p0.
  - rewrite extractMin_snoc. intros [= <- <-]. exists p0.
    unfold heapifyDown. rewrite heapifyDown_loop_Permutation.
    by rewrite (Permutation_app_comm rest' [l]).
Qed.

Lemma extractMin_length h v h' :
  extractMin h = (Some v, h') -> length h = S (length h').
Proof.
  intros [p Hp]%extractMin_Some. by rewrite Hp.
Qed.

(** The fuel of the two sift loops is enough: any larger amount gives the
    same result. *)
Lemma heapifyUp_loop_fuel f1 f2 h current :
  (current <= f1)%nat -> (current <= f2)%nat ->
  heapifyUp_loop f1 h current = heapifyUp_loop f2 h current.
Proof.
  revert f2 h current.
  induction f1 as [|f1 IH]; intros f2 h current H1 H2.
  { assert (current = 0)%nat as -> by lia. by destruct f2. }
  destruct f2 as [|f2].
  { assert (current = 0)%nat as -> by lia. done. }
  cbn [heapifyUp_loop]. destruct (0 <? current)%nat eqn:E; [|done].
  apply Nat.ltb_lt in E.
  destruct (h !! current) as [c|]; [|done].
  destruct (h !! ((current - 1) / 2)%nat) as [p|]; [|done].
  destruct (Qltb c.1 p.1); [|done].
  assert ((current - 1) / 2 <= current - 1)%nat
    by (apply Nat.Div0.div_le_upper_bound; lia).
  apply IH; lia.
Qed.

Lemma pick_cases h smallest child :
  pick h smallest child = smallest
  \/ (pick h smallest child = child /\ (child < length h)%nat).
Proof.
  unfold pick. destruct (h !! child) as [c|] eqn:Hc; [|by left].
  destruct (h !! smallest) as [s|]; [|by left].
  destruct (Qltb c.1 s.1); [right|by left].
  split; [done|]. by eapply lookup_lt_Some.
Qed.

Lemma heapifyDown_loop_fuel f1 f2 h current :
  (length h <= f1 + current)%nat -> (length h <= f2 + current)%nat ->
  heapifyDown_loop f1 h current = heapifyDown_loop f2 h current.
Proof.
  revert f2 h current.
  induction f1 as [|f1 IH]; intros f2 h current H1 H2.
  - destruct f2 as [|f2]; [done|]. cbn [heapifyDown_loop].
    destruct (pick_cases h current (2 * current + 1)) as [E1|[E1 ?]];
      destruct (pick_cases h (pick h current (2 * current + 1))
                  (2 * current + 2)) as [E2|[E2 ?]];
      rewrite ?E2, ?E1; rewrite ?Nat.eqb_refl; try done; lia.
  - destruct f2 as [|f2]; cbn [heapifyDown_loop].
    + destruct (pick_cases h current (2 * current + 1)) as [E1|[E1 ?]];
      destruct (pick_cases h (pick h current (2 * current + 1))
                  (2 * current + 2)) as [E2|[E2 ?]];
      rewrite ?E2, ?E1; rewrite ?Nat.eqb_refl; try done; lia.
    + set (smallest := pick h (pick h current (2 * current + 1))
                         (2 * current + 2)).
      assert (smallest = current \/ (current < smallest)%nat) as [E|E].
      { subst smallest.
        destruct (pick_cases h current (2 * current + 1)) as [E1|[E1 ?]];
        destruct (pick_cases h (pick h current (2 * current + 1))
                    (2 * current + 2)) as [E2|[E2 ?]];
        rewrite ?E2, ?E1; lia. }
      * by rewrite E, Nat.eqb_refl.
      * destruct (smallest =? current)%nat; [done|]. cbn [negb].
        apply IH; rewrite swap_length; lia.
Qed.
End MinHeapFacts.

(** ** Numbers and dates *)

Lemma Qltb_lt x y : Qltb x y = true <-> (x < y)%Q.
Proof.
  unfold Qltb. rewrite negb_true_iff, <- not_true_iff_false, Qle_bool_iff.
  split; [apply Qnot_le_lt|apply Qlt_not_le].
Qed.

Lemma Qltb_ge x y : Qltb x y = false <-> (y <= x)%Q.
Proof.
  unfold Qltb. by rewrite negb_false_iff, Qle_bool_iff.
Qed.

Lemma chunkOf_le_2 r mx a : (chunkOf r mx a <= 2)%Q.
Proof. apply Q.le_min_l. Qed.

Lemma chunkOf_le_remaining r mx a : (chunkOf r mx a <= r)%Q.
Proof.
  unfold chunkOf. eapply Qle_trans; [apply Q.le_min_r|apply Q.le_min_l].
Qed.

Lemma chunkOf_le_capacity r mx a : (chunkOf r mx a <= mx - a)%Q.
Proof.
  unfold chunkOf. eapply Qle_trans; [apply Q.le_min_r|apply Q.le_min_r].
Qed.

Lemma chunkOf_pos r mx a :
  (0 < r)%Q -> (a < mx)%Q -> (0 < chunkOf r mx a)%Q.
Proof.
  intros Hr Ha. unfold chunkOf.
  apply Q.min_glb_lt; [done|]. apply Q.min_glb_lt; [done|].
  by rewrite <- (Qlt_minus_iff a mx).
Qed.

Lemma toISODate_addDays t k : toISODate (addDays t k) = toISODate t + k.
Proof. unfold toISODate, addDays. by rewrite Z.div_add. Qed.

Lemma addDays_addDays t j k : addDays (addDays t j) k = addDays t (j + k).
Proof. unfold addDays. lia. Qed.

Lemma diffDays_pos s now : 0 < diffDays s now.
Proof. unfold diffDays. lia. Qed.

(** ** The allocator *)

Lemma addRevisions_app now s sched :
  addRevisions now s sched = sched ++ revisionsFor now s.
Proof.
  unfold revisionsFor, addRevisions, addRevision. cbn [foldl].
  repeat destruct (parseISODate _ <? _); cbn [app];
    by rewrite <- ?app_assoc, ?app_nil_r.
Qed.

Lemma revisionsFor_spec now s :
  revisionsFor now s =
  revisionAt (toISODate now) s 1 ++ revisionAt (toISODate now) s 3
  ++ revisionAt (toISODate now) s 7.
Proof.
  unfold revisionsFor, addRevisions, addRevision, revisionAt. cbn [foldl].
  rewrite !toISODate_addDays.
  repeat destruct (parseISODate _ <? _); reflexivity.
Qed.

Lemma enqueue_Permutation m now pq s :
  enqueue m now pq s ≡ₚ
  (if Qltb 0 (getRemaining m (id s)) then [(priorityOf s now, s)] else []) ++ pq.
Proof.
  unfold enqueue. destruct (Qltb 0 _); [|done].
  pose proof (diffDays_pos s now) as Hd. apply Z.ltb_lt in Hd. rewrite Hd.
  apply insert_Permutation.
Qed.

Lemma foldl_enqueue_elem m now l pq p s :
  (p, s) ∈ foldl (enqueue m now) pq l ->
  (p, s) ∈ pq
  \/ (s ∈ l /\ p = priorityOf s now /\ (0 < getRemaining m (id s))%Q).
Proof.
  revert pq. induction l as [|x l IH]; intros pq; cbn [foldl]; [by left|].
  intros [H|(? & ? & ?)]%IH.
  - rewrite enqueue_Permutation in H. apply elem_of_app in H as [H|H]; [|by left].
    destruct (Qltb 0 (getRemaining m (id x))) eqn:E; [|by apply elem_of_nil in H].
    apply list_elem_of_singleton in H as [= -> ->]. right.
    split; [by left|]. split; [done|]. by apply Qltb_lt.
  - right. split; [by right|done].
Qed.

Lemma buildQueue_elem sortedSubjects m now p s :
  (p, s) ∈ buildQueue sortedSubjects m now ->
  s ∈ sortedSubjects /\ p = priorityOf s now /\ (0 < getRemaining m (id s))%Q.
Proof.
  intros [H|H]%foldl_enqueue_elem; [by apply elem_of_nil in H|done].
Qed.

Lemma foldl_enqueue_intro m now l pq s :
  s ∈ l -> (0 < getRemaining m (id s))%Q ->
  (priorityOf s now, s) ∈ foldl (enqueue m now) pq l.
Proof.
  assert (forall l pq e, e ∈ pq -> e ∈ foldl (enqueue m now) pq l) as Hkeep.
  { clear. induction l as [|x l IH]; intros pq e He; cbn [foldl]; [done|].
    apply IH. rewrite enqueue_Permutation. apply elem_of_app. by right. }
  revert pq. induction l as [|x l IH]; intros pq Hs Hr.
  { by apply elem_of_nil in Hs. }
  cbn [foldl]. apply elem_of_cons in Hs as [->|Hs]; [|by apply IH].
  apply Hkeep. rewrite enqueue_Permutation. apply elem_of_app. left.
  apply Qltb_lt in Hr. rewrite Hr. by apply list_elem_of_singleton.
Qed.

(** A rule for invariants of the whole run: an invariant that survives one
    allocator step and the change of day holds after any number of days. *)
Section RunInvariant.
Variables (sortedSubjects : list Subject) (maxDailyHours : Q).
Variable Inv : Z -> list ScheduleItem -> gmap Z Q -> Q -> Prop.

Hypothesis Inv_block : forall now sched m a s,
  s ∈ sortedSubjects ->
  Inv now sched m a ->
  (a < maxDailyHours)%Q ->
  (0 < chunkOf (getRemaining m (id s)) maxDailyHours a)%Q ->
  Inv now
    (sched ++ block now s (chunkOf (getRemaining m (id s)) maxDailyHours a))
    (<[id s := (getRemaining m (id s)
                - chunkOf (getRemaining m (id s)) maxDailyHours a)%Q]> m)
    (a + chunkOf (getRemaining m (id s)) maxDailyHours a)%Q.

Hypothesis Inv_next : forall now sched m a,
  Inv now sched m a -> Inv (addDays now 1) sched m 0%Q.

Lemma allocate_loop_invariant fuel now pq sched m a :
  (forall p s, (p, s) ∈ pq -> s ∈ sortedSubjects) ->
  Inv now sched m a ->
  exists sched' m' a',
    allocate_loop fuel maxDailyHours now pq sched m a = (sched', m', a')
    /\ Inv now sched' m' a'.
Proof.
  revert pq sched m a.
  induction fuel as [|fuel IH]; intros pq sched m a Hpq HI; cbn [allocate_loop].
  { by eexists _, _, _. }
  destruct (negb (isEmpty pq) && Qltb a maxDailyHours) eqn:Hgo;
    [|by eexists _, _, _].
  apply andb_prop in Hgo as [_ Ha%Qltb_lt].
  destruct (extractMin pq) as [[subject|] pq'] eqn:Hex; [|by eexists _, _, _].
  apply extractMin_Some in Hex as [p Hp].
  assert (subject ∈ sortedSubjects) as Hs.
  { apply (Hpq p). rewrite Hp. by left. }
  assert (forall q s, (q, s) ∈ pq' -> s ∈ sortedSubjects) as Hpq'.
  { intros q s Hqs. apply (Hpq q). rewrite Hp. by right. }
  destruct (Qltb 0 (chunkOf _ _ _)) eqn:Hc.
  - apply Qltb_lt in Hc. rewrite addRevisions_app, <- app_assoc.
    apply IH; [done|]. by apply Inv_block.
  - by apply IH.
Qed.

Lemma dayStep_invariant st :
  Inv (currentDate st) (schedule st) (remainingHoursMap st) 0%Q ->
  let st' := dayStep sortedSubjects maxDailyHours st in
  Inv (currentDate st') (schedule st') (remainingHoursMap st') 0%Q.
Proof.
  intros HI. unfold dayStep.
  edestruct (allocate_loop_invariant
               (length (buildQueue sortedSubjects (remainingHoursMap st)
                          (currentDate st)))) as (sched' & m' & a' & -> & HI');
    [|exact HI|].
  { intros p s Hps. by apply buildQueue_elem in Hps as [? _]. }
  cbn. by eapply Inv_next.
Qed.

Lemma days_loop_invariant n st :
  Inv (currentDate st) (schedule st) (remainingHoursMap st) 0%Q ->
  let st' := days_loop n sortedSubjects maxDailyHours st in
  Inv (currentDate st') (schedule st') (remainingHoursMap st') 0%Q.
Proof.
  revert st. induction n as [|n IH]; intros st HI; [done|].
  cbn [days_loop]. apply IH. by apply dayStep_invariant.
Qed.
End RunInvariant.

(** ** Sums of hours *)

Lemma sumHours_app l1 l2 : (sumHours (l1 ++ l2) == sumHours l1 + sumHours l2)%Q.
Proof.
  induction l1 as [|x l1 IH]; cbn [app sumHours foldr].
  - by rewrite Qplus_0_l.
  - fold (sumHours (l1 ++ l2)). fold (sumHours l1). rewrite IH.
    by rewrite Qplus_assoc.
Qed.

Lemma revisionAt_no_study day s k (P : ScheduleItem -> Prop)
    `{!forall it, Decision (P it)} :
  filter (fun it => type it = study /\ P it) (revisionAt day s k) = [].
Proof.
  unfold revisionAt. destruct (_ <? _); [|done].
  rewrite filter_cons_False; [done|]. by intros [? _].
Qed.

Lemma revisionsFor_no_study now s (P : ScheduleItem -> Prop)
    `{!forall it, Decision (P it)} :
  filter (fun it => type it = study /\ P it) (revisionsFor now s) = [].
Proof.
  rewrite revisionsFor_spec, !filter_app.
  by rewrite !revisionAt_no_study.
Qed.

Lemma studyOn_app d l1 l2 : (studyOn d (l1 ++ l2) == studyOn d l1 + studyOn d l2)%Q.
Proof. unfold studyOn. by rewrite filter_app, sumHours_app. Qed.

Lemma studyFor_app k l1 l2 :
  (studyFor k (l1 ++ l2) == studyFor k l1 + studyFor k l2)%Q.
Proof. unfold studyFor. by rewrite filter_app, sumHours_app. Qed.

Lemma studyFor_block k now s c :
  (studyFor k (block now s c) == if decide (id s = k) then c else 0)%Q.
Proof.
  unfold studyFor, block. rewrite filter_cons.
  rewrite (revisionsFor_no_study now s (fun it => subjectId it = k)).
  destruct (decide (id s = k)) as [E|E].
  - rewrite decide_True by done. cbn. by rewrite Qplus_0_r.
  - rewrite decide_False; [done|]. by intros [_ ?].
Qed.

(** ** The empty input *)

(** C9.  An empty subjects list yields the empty schedule; the model is a
    total function, so there is no error. *)
Theorem C9_empty_subjects startDate maxDailyHours :
  generateSchedule [] startDate maxDailyHours = [].
Proof. reflexivity. Qed.

(** ** The remaining-hours map *)

Lemma getRemaining_insert m k v k' :
  getRemaining (<[k:=v]> m) k' = if decide (k = k') then v else getRemaining m k'.
Proof.
  unfold getRemaining. destruct (decide (k = k')) as [->|E].
  - by rewrite lookup_insert_eq.
  - by rewrite lookup_insert_ne.
Qed.

(** The map starts, for every id, with the [estimatedHours] of the last
    entry of the sorted list that carries this id. *)
Lemma foldl_set_lookup (l : list Subject) (m0 : gmap Z Q) k :
  foldl (fun m s => <[id s := estimatedHours s]> m) m0 l !! k =
  match last (filter (fun s => id s = k) l) with
  | Some s => Some (estimatedHours s)
  | None => m0 !! k
  end.
Proof.
  induction l as [|x l IH] using rev_ind; [done|].
  rewrite foldl_snoc, filter_app, filter_cons, filter_nil.
  destruct (decide (id x = k)) as [<-|E].
  - by rewrite last_snoc, lookup_insert_eq.
  - by rewrite app_nil_r, lookup_insert_ne.
Qed.

Lemma initRemaining_lookup sortedSubjects k :
  initRemaining sortedSubjects !! k =
  estimatedHours <$> last (filter (fun s => id s = k) sortedSubjects).
Proof.
  unfold initRemaining. rewrite foldl_set_lookup.
  by destruct (last _).
Qed.

Lemma mergeSortSubjects_Permutation subjects :
  mergeSortSubjects subjects ≡ₚ subjects.
Proof. apply mergeSort_rec_Permutation. Qed.

Lemma initRemaining_unshared subjects s :
  s ∈ subjects -> idUnshared subjects s ->
  getRemaining (initRemaining (mergeSortSubjects subjects)) (id s)
  = estimatedHours s.
Proof.
  intros Hs Hun. unfold getRemaining. rewrite initRemaining_lookup.
  destruct (last _) as [s'|] eqn:Hlast; cbn.
  - apply last_Some_elem_of, list_elem_of_filter in Hlast as [Hid Hin].
    rewrite mergeSortSubjects_Permutation in Hin.
    by rewrite (Hun s' Hin Hid).
  - apply last_None in Hlast.
    assert (s ∈ filter (fun x => id x = id s) (mergeSortSubjects subjects)) as Hf.
    { apply list_elem_of_filter. split; [done|].
      by rewrite mergeSortSubjects_Permutation. }
    rewrite Hlast in Hf. by apply elem_of_nil in Hf.
Qed.

(** ** Every item has positive hours *)

Lemma revisionsFor_Forall now s (P : ScheduleItem -> Prop) :
  (forall day, P (mkItem day (id s) (name s) (1 # 2) revision)) ->
  Forall P (revisionsFor now s).
Proof.
  intros HP. rewrite revisionsFor_spec. unfold revisionAt.
  repeat destruct (_ <? _); repeat constructor; apply HP.
Qed.

Lemma block_Forall now s c (P : ScheduleItem -> Prop) :
  P (studyItem now s c) ->
  (forall day, P (mkItem day (id s) (name s) (1 # 2) revision)) ->
  Forall P (block now s c).
Proof.
  intros H1 H2. constructor; [done|]. by apply revisionsFor_Forall.
Qed.

(** An invariant that only looks at the items: whatever holds of the items
    of every block holds of the whole schedule after any number of days. *)
Lemma days_loop_Forall (P : ScheduleItem -> Prop) sortedSubjects maxDailyHours n st :
  (forall now s r a,
     s ∈ sortedSubjects -> (a < maxDailyHours)%Q ->
     (0 < chunkOf r maxDailyHours a)%Q ->
     Forall P (block now s (chunkOf r maxDailyHours a))) ->
  Forall P (schedule st) ->
  Forall P (schedule (days_loop n sortedSubjects maxDailyHours st)).
Proof.
  intros Hblock Hst.
  apply (days_loop_invariant sortedSubjects maxDailyHours
           (fun _ sched _ _ => Forall P sched)); [| |done].
  - intros now sched m a s Hs HI Ha Hc. apply Forall_app. split; [done|].
    by apply Hblock.
  - done.
Qed.

Lemma sumHours_nonneg l : Forall positiveHours l -> (0 <= sumHours l)%Q.
Proof.
  induction 1 as [|x l Hx _ IH]; cbn; [lra|].
  unfold positiveHours in Hx. fold (sumHours l). lra.
Qed.

Lemma studyFor_nonneg k l : Forall positiveHours l -> (0 <= studyFor k l)%Q.
Proof.
  intros H. apply sumHours_nonneg.
  apply Forall_forall. intros x [_ Hx]%list_elem_of_filter.
  by eapply Forall_forall in H.
Qed.

Lemma studyFor_prefix k pre l :
  Forall positiveHours l -> pre `prefix_of` l ->
  (studyFor k pre <= studyFor k l)%Q.
Proof.
  intros Hpos [rest ->]. rewrite studyFor_app.
  apply Forall_app in Hpos as [_ Hrest].
  pose proof (studyFor_nonneg k rest Hrest). lra.
Qed.

(** ** The days of the run *)

(** One more day is the loop body after the days before. *)
Lemma days_loop_succ n sortedSubjects maxDailyHours st :
  days_loop (S n) sortedSubjects maxDailyHours st =
  dayStep sortedSubjects maxDailyHours
    (days_loop n sortedSubjects maxDailyHours st).
Proof.
  revert st. induction n as [|n IH]; intros st; [done|].
  change (days_loop (S (S n)) sortedSubjects maxDailyHours st)
    with (days_loop (S n) sortedSubjects maxDailyHours
            (dayStep sortedSubjects maxDailyHours st)).
  by rewrite IH.
Qed.

Lemma runDays_succ n subjects startDate maxDailyHours :
  runDays (S n) subjects startDate maxDailyHours =
  dayStep (mergeSortSubjects subjects) maxDailyHours
    (runDays n subjects startDate maxDailyHours).
Proof. apply days_loop_succ. Qed.

Lemma currentDate_days_loop n sortedSubjects maxDailyHours st :
  currentDate (days_loop n sortedSubjects maxDailyHours st)
  = addDays (currentDate st) (Z.of_nat n).
Proof.
  induction n as [|n IH].
  - unfold addDays. cbn. lia.
  - rewrite days_loop_succ. unfold dayStep.
    destruct (allocate_loop _ _ _ _ _ _ _) as [[? ?] ?]. cbn.
    rewrite IH, addDays_addDays. f_equal. lia.
Qed.

(** ** Subjects without workload *)

(** C10 (as amended).  A subject with [estimatedHours = 0] whose id no other
    entry shares gets no item at all, neither [study] nor [revision]: no
    item of the plan carries its id. *)
Theorem C10_zero_workload_omitted subjects startDate maxDailyHours subj :
  subj ∈ subjects -> idUnshared subjects subj ->
  (estimatedHours subj == 0)%Q ->
  Forall (fun it => subjectId it <> id subj)
    (generateSchedule subjects startDate maxDailyHours).
Proof.
  intros Hin Hun Hzero.
  pose proof (initRemaining_unshared subjects subj Hin Hun) as Hinit.
  pose proof (days_loop_invariant (mergeSortSubjects subjects) maxDailyHours
    (fun _ sched m _ =>
       (getRemaining m (id subj) <= 0)%Q
       /\ Forall (fun it => subjectId it <> id subj) sched)) as Hrule.
  edestruct Hrule as [_ Hall]; [| | |exact Hall].
  - intros now sched m a s _ [Hrem Hall] _ Hc.
    pose proof (chunkOf_le_remaining (getRemaining m (id s)) maxDailyHours a).
    destruct (decide (id s = id subj)) as [E|E].
    { rewrite E in *. lra. }
    rewrite getRemaining_insert, decide_False by done.
    split; [done|]. apply Forall_app. split; [done|].
    by apply block_Forall.
  - done.
  - cbn. rewrite Hinit. split; [lra|constructor].
Qed.

Lemma C10_zero_workload_omitted_witness :
  let idle := mkSubject 7 "idle" 3 (parseISODate 10) 0 in
  let busy := mkSubject 8 "busy" 3 (parseISODate 10) 4 in
  Forall (fun it => subjectId it <> 7)
    (generateSchedule [idle; busy] (parseISODate 0) 6).
Proof.
  intros idle busy.
  apply (C10_zero_workload_omitted [idle; busy] (parseISODate 0) 6 idle).
  - by left.
  - intros s' [->|[->|[]%elem_of_nil]%elem_of_cons]%elem_of_cons; [done|].
    intros [=].
  - reflexivity.
Defined.

(** C10, the claim as stated, fails when the idle entry shares its id with a
    loaded one: the map holds the five hours of the loaded entry under the
    common id, the idle entry enters the queue and receives a study chunk. *)
Lemma C10_counterexample :
  let subjects := [Examples.idle; Examples.loaded] in
  Examples.idle ∈ subjects
  /\ (estimatedHours Examples.idle == 0)%Q
  /\ studyItem Examples.day0 Examples.idle 2
     ∈ generateSchedule subjects Examples.day0 6.
Proof.
  split; [by left|]. split; [reflexivity|].
  vm_compute. by left.
Qed.

(** ** The hours of an item *)

Lemma HalfUnit_plus q1 q2 : HalfUnit q1 -> HalfUnit q2 -> HalfUnit (q1 + q2)%Q.
Proof.
  intros [n1 H1] [n2 H2]. exists (n1 + n2). rewrite H1, H2.
  unfold Qeq, Qplus. cbn. lia.
Qed.

Lemma HalfUnit_minus q1 q2 : HalfUnit q1 -> HalfUnit q2 -> HalfUnit (q1 - q2)%Q.
Proof.
  intros [n1 H1] [n2 H2]. exists (n1 - n2). rewrite H1, H2.
  unfold Qeq, Qminus, Qplus, Qopp. cbn. lia.
Qed.

Lemma HalfUnit_min q1 q2 : HalfUnit q1 -> HalfUnit q2 -> HalfUnit (Qmin q1 q2).
Proof.
  intros H1 H2. destruct (Q.min_spec q1 q2) as [[_ E]|[_ E]];
    destruct H1 as [n1 H1], H2 as [n2 H2]; [exists n1|exists n2];
    by rewrite E.
Qed.

Lemma HalfUnit_0 : HalfUnit 0.
Proof. by exists 0. Qed.

Lemma HalfUnit_2 : HalfUnit 2.
Proof. by exists 4. Qed.

Lemma HalfUnit_chunkOf r mx a :
  HalfUnit r -> HalfUnit mx -> HalfUnit a -> HalfUnit (chunkOf r mx a).
Proof.
  intros Hr Hm Ha. unfold chunkOf.
  apply HalfUnit_min; [apply HalfUnit_2|].
  apply HalfUnit_min; [done|]. by apply HalfUnit_minus.
Qed.

Lemma initRemaining_HalfUnit subjects k :
  (forall s, s ∈ subjects -> HalfUnit (estimatedHours s)) ->
  HalfUnit (getRemaining (initRemaining (mergeSortSubjects subjects)) k).
Proof.
  intros Hall. unfold getRemaining. rewrite initRemaining_lookup.
  destruct (last _) as [s|] eqn:Hlast; cbn; [|apply HalfUnit_0].
  apply last_Some_elem_of, list_elem_of_filter in Hlast as [_ Hin].
  rewrite mergeSortSubjects_Permutation in Hin. by apply Hall.
Qed.

(** C8 (as amended).  Every item of the plan has [hours > 0], every [study]
    item has [hours <= 2] and every [revision] item has [hours] exactly
    [0.5], for all inputs; the [hours] of every [study] item are an integer
    multiple of [0.5] when every [estimatedHours] and [maxDailyHours] are. *)
Theorem C8_item_hours subjects startDate maxDailyHours :
  Forall hoursInRange (generateSchedule subjects startDate maxDailyHours)
  /\ ((forall s, s ∈ subjects -> HalfUnit (estimatedHours s)) ->
      HalfUnit maxDailyHours ->
      Forall (fun it => type it = study -> HalfUnit (hours it))
        (generateSchedule subjects startDate maxDailyHours)).
Proof.
  split.
  - apply days_loop_Forall; [|constructor].
    intros now s r a _ _ Hc. apply block_Forall.
    + split; [done|]. split; [|done]. intros _. apply chunkOf_le_2.
    + intros day. split; [reflexivity|]. by split.
  - intros Hest Hmax.
    pose proof (days_loop_invariant (mergeSortSubjects subjects) maxDailyHours
      (fun _ sched m a =>
         (forall k, HalfUnit (getRemaining m k))
         /\ HalfUnit a
         /\ Forall (fun it => type it = study -> HalfUnit (hours it)) sched))
      as Hrule.
    edestruct Hrule as (_ & _ & Hall); [| | |exact Hall].
    + intros now sched m a s _ (Hm & Ha & Hall) _ _.
      assert (HalfUnit (chunkOf (getRemaining m (id s)) maxDailyHours a))
        as Hc by (by apply HalfUnit_chunkOf).
      split; [|split].
      * intros k. rewrite getRemaining_insert.
        destruct (decide (id s = k)); [|done]. by apply HalfUnit_minus.
      * by apply HalfUnit_plus.
      * apply Forall_app. split; [done|]. by apply block_Forall.
    + intros now sched m a (Hm & _ & Hall).
      split; [done|]. split; [apply HalfUnit_0|done].
    + cbn. split; [|split; [apply HalfUnit_0|constructor]].
      intros k. by apply initRemaining_HalfUnit.
Qed.

Lemma C8_item_hours_witness :
  let subj := mkSubject 1 "A" 5 (parseISODate 10) (7 # 2) in
  Forall (fun it => type it = study -> HalfUnit (hours it))
    (generateSchedule [subj] (parseISODate 0) 6).
Proof.
  intros subj.
  apply (proj2 (C8_item_hours [subj] (parseISODate 0) 6)).
  - intros s ->%list_elem_of_singleton. by exists 7.
  - by exists 12.
Defined.

(** C8, the claim as stated, fails on its half-unit part: an input that
    meets the documented preconditions with [estimatedHours = 0.3] gets a
    study chunk of [0.3] hours. *)
Lemma C8_counterexample :
  let subj := Examples.fractional in
  (0 <= estimatedHours subj)%Q /\ 1 <= difficulty subj <= 5 /\ (0 < 6)%Q
  /\ exists it,
       it ∈ generateSchedule [subj] Examples.day0 6
       /\ type it = study /\ ~ HalfUnit (hours it).
Proof.
  repeat split; [done..|].
  exists (studyItem Examples.day0 Examples.fractional (3 # 10)).
  split; [vm_compute; by left|]. split; [done|].
  intros [n Hn]. unfold Qeq in Hn. cbn in Hn. lia.
Qed.

(** ** The order of the sorted list *)

(** C3 (as amended).  [mergeSortSubjects] returns a permutation of its input
    that is ordered by exam date ascending and, on equal exam dates, by
    difficulty descending.  The sort is not stable: subjects with the same
    exam date and the same difficulty come out in the reverse of their
    input order. *)
Theorem C3_mergeSort_order subjects :
  mergeSortSubjects subjects ≡ₚ subjects
  /\ StronglySorted subjectLe (mergeSortSubjects subjects)
  /\ forall k,
       filter (fun s => sameKey k s = true) (mergeSortSubjects subjects)
       = reverse (filter (fun s => sameKey k s = true) subjects).
Proof.
  split; [apply mergeSortSubjects_Permutation|]. split.
  - by apply mergeSort_rec_StronglySorted.
  - intros k. by apply mergeSort_rec_filter_sameKey.
Qed.

(** C3, the claim as stated, fails on its stability part: two subjects with
    the same exam date and difficulty change places. *)
Lemma C3_counterexample :
  let a := Examples.twin1 in
  let b := Examples.twin2' in
  sameKey a b = true
  /\ mergeSortSubjects [a; b] = [b; a]
  /\ filter (fun s => sameKey a s = true) (mergeSortSubjects [a; b])
     <> filter (fun s => sameKey a s = true) [a; b].
Proof.
  split; [reflexivity|]. split; [reflexivity|].
  vm_compute. discriminate.
Qed.

(** ** Two subjects of unequal difficulty *)

Lemma mergeSortSubjects_pair x y :
  mergeSortSubjects [x; y] = if takesLeft x y then [x; y] else [y; x].
Proof. reflexivity. Qed.

Lemma insert_empty {T} p (v : T) : insert p v [] = [(p, v)].
Proof. reflexivity. Qed.

(** A second entry that is not strictly more urgent stays behind the first. *)
Lemma insert_second {T} p0 (v0 : T) p v :
  Qltb p p0 = false -> insert p v [(p0, v0)] = [(p0, v0); (p, v)].
Proof.
  intros Hp. unfold insert, heapifyUp. cbn. by rewrite Hp.
Qed.

(** With equal exam dates the harder of two subjects is at least as urgent. *)
Lemma priority_harder_first H E now :
  difficulty H = 5 -> difficulty E = 1 -> examDate H = examDate E ->
  Qltb (priorityOf E now) (priorityOf H now) = false
  /\ (priorityOf H now < priorityOf E now)%Q.
Proof.
  intros HH HE Hexam. unfold priorityOf, diffDays. rewrite HH, HE, Hexam.
  set (dd := Z.max 1 _). assert (1 <= dd) as Hdd by (subst dd; lia).
  assert (inject_Z dd / inject_Z 5 < inject_Z dd / inject_Z 1)%Q as Hlt.
  { unfold Qlt, Qdiv, Qmult, Qinv, inject_Z. cbn. lia. }
  split; [|exact Hlt]. apply Qltb_ge. by apply Qlt_le_weak.
Qed.

(** One round of the greedy loop that allocates a chunk. *)
Lemma allocate_loop_chunk fuel maxDailyHours now pq sched m a subject pq' :
  extractMin pq = (Some subject, pq') ->
  (a < maxDailyHours)%Q ->
  (0 < getRemaining m (id subject))%Q ->
  allocate_loop (S fuel) maxDailyHours now pq sched m a =
  allocate_loop fuel maxDailyHours now pq'
    (sched ++ block now subject
                (chunkOf (getRemaining m (id subject)) maxDailyHours a))
    (<[id subject := (getRemaining m (id subject)
                      - chunkOf (getRemaining m (id subject)) maxDailyHours a)%Q]> m)
    (a + chunkOf (getRemaining m (id subject)) maxDailyHours a)%Q.
Proof.
  intros Hex Ha Hr. cbn [allocate_loop].
  assert (isEmpty pq = false) as ->.
  { destruct pq; [done|reflexivity]. }
  apply Qltb_lt in Ha as Ha'. rewrite Ha', Hex. cbn [negb andb].
  pose proof (chunkOf_pos _ maxDailyHours a Hr Ha) as Hc.
  apply Qltb_lt in Hc. rewrite Hc.
  by rewrite addRevisions_app, <- app_assoc.
Qed.

(** The greedy loop stops when the capacity of the day is used up. *)
Lemma allocate_loop_full fuel maxDailyHours now pq sched m a :
  Qltb a maxDailyHours = false ->
  allocate_loop fuel maxDailyHours now pq sched m a = (sched, m, a).
Proof.
  intros Ha. destruct fuel; [done|]. cbn [allocate_loop].
  by rewrite Ha, andb_false_r.
Qed.

(** The fuel of the greedy loop is enough: more than the length of the
    queue gives the same result. *)
Lemma allocate_loop_fuel f1 f2 maxDailyHours now pq sched m a :
  (length pq <= f1)%nat -> (length pq <= f2)%nat ->
  allocate_loop f1 maxDailyHours now pq sched m a
  = allocate_loop f2 maxDailyHours now pq sched m a.
Proof.
  revert f2 pq sched m a.
  induction f1 as [|f1 IH]; intros f2 pq sched m a H1 H2.
  { destruct pq; [by destruct f2|cbn in H1; lia]. }
  destruct f2 as [|f2].
  { destruct pq; [done|cbn in H2; lia]. }
  cbn [allocate_loop].
  destruct (negb (isEmpty pq) && Qltb a maxDailyHours); [|done].
  destruct (extractMin pq) as [[x|] pq'] eqn:Hex; [|done].
  apply extractMin_length in Hex.
  destruct (Qltb 0 (chunkOf _ _ _)); apply IH; lia.
Qed.

Lemma enqueue_eligible m now pq s :
  Qltb 0 (getRemaining m (id s)) = true ->
  enqueue m now pq s = insert (priorityOf s now) s pq.
Proof.
  intros Hr. unfold enqueue. rewrite Hr.
  pose proof (diffDays_pos s now) as Hd. apply Z.ltb_lt in Hd. by rewrite Hd.
Qed.

Lemma enqueue_done m now pq s :
  Qltb 0 (getRemaining m (id s)) = false -> enqueue m now pq s = pq.
Proof. intros Hr. unfold enqueue. by rewrite Hr. Qed.

Lemma dayStep_pair H E maxDailyHours st :
  difficulty H = 5 -> difficulty E = 1 -> examDate H = examDate E ->
  id H <> id E -> (0 < maxDailyHours)%Q ->
  schedule (dayStep [H; E] maxDailyHours st)
  = schedule st ++ pairDay H E maxDailyHours st.
Proof.
  intros HH HE Hexam Hid Hmax.
  destruct (priority_harder_first H E (currentDate st) HH HE Hexam) as [Hprio _].
  unfold dayStep, pairDay, buildQueue. cbn [foldl].
  set (m := remainingHoursMap st). set (now := currentDate st).
  destruct (Qltb 0 (getRemaining m (id H))) eqn:HrH;
    destruct (Qltb 0 (getRemaining m (id E))) eqn:HrE.
  - rewrite (enqueue_eligible _ _ _ H), (enqueue_eligible _ _ _ E) by done.
    rewrite insert_empty, insert_second by done.
    apply Qltb_lt in HrH as HrH'. apply Qltb_lt in HrE as HrE'.
    cbn [length].
    rewrite (allocate_loop_chunk _ _ _ _ _ _ _ H [(priorityOf E now, E)])
      by done.
    set (cH := chunkOf (getRemaining m (id H)) maxDailyHours 0).
    destruct (Qltb (0 + cH) maxDailyHours) eqn:Hcap.
    + apply Qltb_lt in Hcap as Hcap'.
      assert (getRemaining
                (<[id H := (getRemaining m (id H) - cH)%Q]> m) (id E)
              = getRemaining m (id E)) as HmE
        by (by rewrite getRemaining_insert, decide_False).
      rewrite (allocate_loop_chunk _ _ _ _ _ _ _ E []);
        [|done|done|by rewrite HmE].
      rewrite HmE. cbn. by rewrite <- app_assoc.
    + rewrite allocate_loop_full by done. cbn. by rewrite app_nil_r.
  - rewrite (enqueue_eligible _ _ _ H), (enqueue_done _ _ _ E) by done.
    rewrite insert_empty.
    apply Qltb_lt in HrH as HrH'. cbn [length].
    rewrite (allocate_loop_chunk _ _ _ _ _ _ _ H []) by done.
    cbn. by rewrite app_nil_r.
  - rewrite (enqueue_done _ _ _ H), (enqueue_eligible _ _ _ E) by done.
    rewrite insert_empty.
    apply Qltb_lt in HrE as HrE'. apply Qltb_lt in Hmax as Hmax'.
    rewrite Hmax'. cbn [length andb app].
    rewrite (allocate_loop_chunk _ _ _ _ _ _ _ E []) by done.
    done.
  - rewrite (enqueue_done _ _ _ H), (enqueue_done _ _ _ E) by done.
    cbn. by rewrite app_nil_r.
Qed.




(** ** Subjects whose exam has passed *)

Lemma Qceiling_negative a d : a < 0 -> Qceiling (a # d) <= 0.
Proof.
  intros Ha. unfold Qceiling, Qfloor, Qopp. cbn.
  assert (0 <= - a / Z.pos d) by (apply Z.div_pos; lia). lia.
Qed.

Lemma diffDays_passed s now : examDate s < now -> diffDays s now = 1.
Proof.
  intros Hpast. unfold diffDays. apply Z.max_l.
  etransitivity; [apply Qceiling_negative; lia|done].
Qed.

Lemma currentDate_runDays n subjects startDate maxDailyHours :
  currentDate (runDays n subjects startDate maxDailyHours)
  = addDays startDate (Z.of_nat n).
Proof. unfold runDays. by rewrite currentDate_days_loop. Qed.

Lemma toISODate_next_midnight t : t < parseISODate (toISODate t + 1).
Proof.
  unfold parseISODate, toISODate, MS_PER_DAY.
  Z.to_euclidean_division_equations. lia.
Qed.

(** After the exam nothing is left to revise for. *)
Lemma revisionsFor_passed now s : examDate s < now -> revisionsFor now s = [].
Proof.
  intros Hpast. rewrite revisionsFor_spec. unfold revisionAt.
  pose proof (toISODate_next_midnight now) as Hnext.
  assert (forall k, 1 <= k ->
            (parseISODate (toISODate now + k) <? examDate s) = false) as Hk.
  { intros k Hk1. apply Z.ltb_ge. unfold parseISODate, MS_PER_DAY in *. lia. }
  by rewrite !Hk.
Qed.

Lemma dayStep_single s maxDailyHours st :
  (0 < maxDailyHours)%Q ->
  (0 < getRemaining (remainingHoursMap st) (id s))%Q ->
  schedule (dayStep [s] maxDailyHours st)
  = schedule st
    ++ block (currentDate st) s
         (chunkOf (getRemaining (remainingHoursMap st) (id s)) maxDailyHours 0).
Proof.
  intros Hmax Hr. unfold dayStep, buildQueue. cbn [foldl].
  apply Qltb_lt in Hr as Hr'.
  rewrite enqueue_eligible, insert_empty by done. cbn [length].
  by rewrite (allocate_loop_chunk _ _ _ _ _ _ _ s []).
Qed.

(** The greedy loop only appends to the schedule. *)
Lemma allocate_loop_prefix fuel maxDailyHours now pq sched m a :
  sched `prefix_of`
    (allocate_loop fuel maxDailyHours now pq sched m a).1.1.
Proof.
  revert pq sched m a. induction fuel as [|fuel IH]; intros pq sched m a;
    cbn [allocate_loop]; [done|].
  destruct (negb (isEmpty pq) && Qltb a maxDailyHours); [|done].
  destruct (extractMin pq) as [[x|] pq']; [|done].
  destruct (Qltb 0 (chunkOf _ _ _)); [|apply IH].
  etransitivity; [|apply IH].
  rewrite addRevisions_app, <- app_assoc. by apply prefix_app_r.
Qed.

(** A subject in the day's queue whose id no other entry shares is served
    that day, unless the capacity of the day is used up first. *)
Lemma allocate_loop_serves fuel maxDailyHours now pq sched m a p s :
  (length pq <= fuel)%nat ->
  (p, s) ∈ pq ->
  (forall p' s', (p', s') ∈ pq -> id s' = id s -> s' = s) ->
  (0 < getRemaining m (id s))%Q ->
  (exists c, (0 < c)%Q
     /\ studyItem now s c
        ∈ (allocate_loop fuel maxDailyHours now pq sched m a).1.1)
  \/ (maxDailyHours
      <= (allocate_loop fuel maxDailyHours now pq sched m a).2)%Q.
Proof.
  revert pq sched m a.
  induction fuel as [|fuel IH]; intros pq sched m a Hlen Hin Hun Hr.
  { destruct pq; [by apply elem_of_nil in Hin|cbn in Hlen; lia]. }
  cbn [allocate_loop].
  assert (isEmpty pq = false) as ->.
  { destruct pq; [by apply elem_of_nil in Hin|reflexivity]. }
  cbn [negb andb].
  destruct (Qltb a maxDailyHours) eqn:Ha;
    [|right; by apply Qltb_ge in Ha].
  apply Qltb_lt in Ha.
  destruct (extractMin pq) as [[x|] pq'] eqn:Hex.
  2:{ apply extractMin_None in Hex. subst pq. by apply elem_of_nil in Hin. }
  pose proof (extractMin_length _ _ _ Hex) as Hlen'.
  apply extractMin_Some in Hex as [px Hp].
  destruct (decide (id x = id s)) as [E|E].
  - assert (x = s) as ->.
    { apply (Hun px); [|done]. rewrite Hp. by left. }
    pose proof (chunkOf_pos _ maxDailyHours a Hr Ha) as Hc.
    apply Qltb_lt in Hc as Hc'. rewrite Hc'. left.
    eexists. split; [exact Hc|].
    eapply elem_of_prefix; [|apply allocate_loop_prefix].
    rewrite addRevisions_app. apply elem_of_app. left.
    apply elem_of_app. right. by left.
  - assert ((p, s) ∈ pq') as Hin'.
    { rewrite Hp in Hin. apply elem_of_cons in Hin as [[= _ ->]|]; done. }
    assert (forall p' s', (p', s') ∈ pq' -> id s' = id s -> s' = s) as Hun'.
    { intros p' s' H'. apply (Hun p'). rewrite Hp. by right. }
    destruct (Qltb 0 (chunkOf _ _ _)).
    + apply IH; [lia|done|done|].
      by rewrite getRemaining_insert, decide_False.
    + apply IH; [lia|done|done|done].
Qed.




(** * The plan on a host *)

(** ** The steps of the greedy loop *)

Section HostFacts.
Variable h : Host.

Lemma host_addRevisions_app now s sched :
  OnHost.addRevisions h now s sched = sched ++ OnHost.revisionsFor h now s.
Proof.
  unfold OnHost.revisionsFor, OnHost.addRevisions, OnHost.addRevision.
  cbn [foldl].
  repeat destruct (parseISODate _ <? _); cbn [app];
    by rewrite <- ?app_assoc, ?app_nil_r.
Qed.

(** Every revision item is an item of half an hour for the subject, on a
    day that starts before the exam. *)
Lemma host_revisionsFor_Forall now s (P : ScheduleItem -> Prop) :
  (forall day, parseISODate day < examDate s ->
               P (mkItem day (id s) (name s) (1 # 2) revision)) ->
  Forall P (OnHost.revisionsFor h now s).
Proof.
  intros HP.
  unfold OnHost.revisionsFor, OnHost.addRevisions, OnHost.addRevision.
  cbn [foldl].
  repeat match goal with
  | |- context [parseISODate ?d <? ?e] =>
      destruct (Z.ltb_spec (parseISODate d) e)
  end; cbn [app];
  repeat (apply Forall_cons_2; [by apply HP|]); apply Forall_nil_2.
Qed.

Lemma host_block_Forall now s c (P : ScheduleItem -> Prop) :
  P (studyItem now s c) ->
  (forall day, parseISODate day < examDate s ->
               P (mkItem day (id s) (name s) (1 # 2) revision)) ->
  Forall P (OnHost.block h now s c).
Proof.
  intros H1 H2. constructor; [done|]. by apply host_revisionsFor_Forall.
Qed.

Lemma host_revisionsFor_no_study now s (P : ScheduleItem -> Prop)
    `{!forall it, Decision (P it)} :
  filter (fun it => type it = study /\ P it) (OnHost.revisionsFor h now s) = [].
Proof.
  apply filter_none. apply host_revisionsFor_Forall. by intros day _ [? _].
Qed.

Lemma host_studyOn_block d now s c :
  (studyOn d (OnHost.block h now s c)
   == if decide (toISODate now = d) then c else 0)%Q.
Proof.
  unfold studyOn, OnHost.block. rewrite filter_cons.
  rewrite (host_revisionsFor_no_study now s (fun it => date it = d)).
  destruct (decide (toISODate now = d)) as [E|E].
  - rewrite decide_True by done. cbn. by rewrite Qplus_0_r.
  - rewrite decide_False; [done|]. by intros [_ ?].
Qed.

Lemma host_studyFor_block k now s c :
  (studyFor k (OnHost.block h now s c)
   == if decide (id s = k) then c else 0)%Q.
Proof.
  unfold studyFor, OnHost.block. rewrite filter_cons.
  rewrite (host_revisionsFor_no_study now s (fun it => subjectId it = k)).
  destruct (decide (id s = k)) as [E|E].
  - rewrite decide_True by done. cbn. by rewrite Qplus_0_r.
  - rewrite decide_False; [done|]. by intros [_ ?].
Qed.

Lemma host_diffDays_pos s now : 0 < OnHost.diffDays h s now.
Proof. unfold OnHost.diffDays. lia. Qed.

Lemma host_enqueue_Permutation m now pq s :
  OnHost.enqueue h m now pq s ≡ₚ
  (if Qltb 0 (getRemaining m (id s))
   then [(OnHost.priorityOf h s now, s)] else []) ++ pq.
Proof.
  unfold OnHost.enqueue. destruct (Qltb 0 _); [|done].
  pose proof (host_diffDays_pos s now) as Hd. apply Z.ltb_lt in Hd. rewrite Hd.
  apply insert_Permutation.
Qed.

(** The day's queue holds one cell for every entry of the sorted list whose
    id has hours remaining, entries of equal id included. *)
Lemma host_buildQueue_Permutation sortedSubjects m now :
  OnHost.buildQueue h sortedSubjects m now ≡ₚ
  (fun s => (OnHost.priorityOf h s now, s))
  <$> filter (fun s => Qltb 0 (getRemaining m (id s)) = true) sortedSubjects.
Proof.
  unfold OnHost.buildQueue.
  induction sortedSubjects as [|x l IH] using rev_ind; [done|].
  rewrite foldl_snoc, host_enqueue_Permutation, IH, filter_app, fmap_app.
  rewrite filter_cons, filter_nil.
  destruct (Qltb 0 (getRemaining m (id x))) eqn:E.
  - rewrite decide_True by done. cbn [fmap list_fmap app].
    by rewrite (Permutation_app_comm _ [_]).
  - rewrite decide_False by done. cbn. by rewrite app_nil_r.
Qed.

Lemma host_buildQueue_elem sortedSubjects m now p s :
  (p, s) ∈ OnHost.buildQueue h sortedSubjects m now ->
  s ∈ sortedSubjects /\ p = OnHost.priorityOf h s now
  /\ (0 < getRemaining m (id s))%Q.
Proof.
  rewrite host_buildQueue_Permutation.
  intros (s' & [= -> ->] & [Hr Hin]%list_elem_of_filter)%list_elem_of_fmap.
  split; [done|]. split; [done|]. by apply Qltb_lt.
Qed.

(** A rule for invariants of a run of [days] days on a host: an invariant
    of the day [i] that survives one step of the greedy loop and the change
    to the day [i + 1] holds when the run is over. *)
Section HostInvariant.
Variables (sortedSubjects : list Subject) (maxDailyHours : Q) (days : nat).
Variable Inv : nat -> Z -> list ScheduleItem -> gmap Z Q -> Q -> Prop.

Hypothesis Inv_block : forall i now sched m a s,
  (i < days)%nat -> s ∈ sortedSubjects ->
  Inv i now sched m a ->
  (a < maxDailyHours)%Q ->
  (0 < OnHost.chunkOf h (getRemaining m (id s)) maxDailyHours a)%Q ->
  Inv i now
    (sched ++ OnHost.block h now s
               (OnHost.chunkOf h (getRemaining m (id s)) maxDailyHours a))
    (<[id s := rnd h (getRemaining m (id s)
                      - OnHost.chunkOf h (getRemaining m (id s))
                          maxDailyHours a)]> m)
    (rnd h (a + OnHost.chunkOf h (getRemaining m (id s)) maxDailyHours a)).

Hypothesis Inv_next : forall i now sched m a,
  (i < days)%nat ->
  Inv i now sched m a -> Inv (S i) (OnHost.setDate h now 1) sched m 0%Q.

Lemma host_allocate_loop_invariant i fuel now pq sched m a :
  (i < days)%nat ->
  (forall p s, (p, s) ∈ pq -> s ∈ sortedSubjects) ->
  Inv i now sched m a ->
  exists sched' m' a',
    OnHost.allocate_loop h fuel maxDailyHours now pq sched m a
    = (sched', m', a')
    /\ Inv i now sched' m' a'.
Proof.
  intros Hi. revert pq sched m a.
  induction fuel as [|fuel IH]; intros pq sched m a Hpq HI;
    cbn [OnHost.allocate_loop].
  { by eexists _, _, _. }
  destruct (negb (isEmpty pq) && Qltb a maxDailyHours) eqn:Hgo;
    [|by eexists _, _, _].
  apply andb_prop in Hgo as [_ Ha%Qltb_lt].
  destruct (extractMin pq) as [[subject|] pq'] eqn:Hex; [|by eexists _, _, _].
  apply extractMin_Some in Hex as [p Hp].
  assert (subject ∈ sortedSubjects) as Hs.
  { apply (Hpq p). rewrite Hp. by left. }
  assert (forall q s, (q, s) ∈ pq' -> s ∈ sortedSubjects) as Hpq'.
  { intros q s Hqs. apply (Hpq q). rewrite Hp. by right. }
  destruct (Qltb 0 (OnHost.chunkOf _ _ _ _)) eqn:Hc.
  - apply Qltb_lt in Hc. rewrite host_addRevisions_app, <- app_assoc.
    apply IH; [done|]. by apply Inv_block.
  - by apply IH.
Qed.

Lemma host_dayStep_invariant i st :
  (i < days)%nat ->
  Inv i (currentDate st) (schedule st) (remainingHoursMap st) 0%Q ->
  let st' := OnHost.dayStep h sortedSubjects maxDailyHours st in
  Inv (S i) (currentDate st') (schedule st') (remainingHoursMap st') 0%Q.
Proof.
  intros Hi HI. unfold OnHost.dayStep.
  edestruct (host_allocate_loop_invariant i
               (length (OnHost.buildQueue h sortedSubjects
                          (remainingHoursMap st) (currentDate st))))
    as (sched' & m' & a' & -> & HI'); [exact Hi| |exact HI|].
  { intros p s Hps. by apply host_buildQueue_elem in Hps as [? _]. }
  cbn. by eapply Inv_next.
Qed.

Lemma host_days_loop_invariant n i st :
  (i + n <= days)%nat ->
  Inv i (currentDate st) (schedule st) (remainingHoursMap st) 0%Q ->
  let st' := OnHost.days_loop h n sortedSubjects maxDailyHours st in
  Inv (i + n) (currentDate st') (schedule st') (remainingHoursMap st') 0%Q.
Proof.
  revert i st. induction n as [|n IH]; intros i st Hle HI.
  { by rewrite Nat.add_0_r. }
  cbn [OnHost.days_loop]. rewrite <- Nat.add_succ_comm.
  apply IH; [lia|]. apply host_dayStep_invariant; [lia|done].
Qed.
End HostInvariant.

Lemma host_days_loop_succ n sortedSubjects maxDailyHours st :
  OnHost.days_loop h (S n) sortedSubjects maxDailyHours st =
  OnHost.dayStep h sortedSubjects maxDailyHours
    (OnHost.days_loop h n sortedSubjects maxDailyHours st).
Proof.
  revert st. induction n as [|n IH]; intros st; [done|].
  change (OnHost.days_loop h (S (S n)) sortedSubjects maxDailyHours st)
    with (OnHost.days_loop h (S n) sortedSubjects maxDailyHours
            (OnHost.dayStep h sortedSubjects maxDailyHours st)).
  by rewrite IH.
Qed.

(** Every item of the plan has positive hours, on every host. *)
Lemma host_positiveHours sortedSubjects maxDailyHours n st :
  Forall positiveHours (schedule st) ->
  Forall positiveHours
    (schedule (OnHost.days_loop h n sortedSubjects maxDailyHours st)).
Proof.
  intros Hst.
  refine (host_days_loop_invariant sortedSubjects maxDailyHours n
            (fun _ _ sched _ _ => Forall positiveHours sched) _ _
            n 0%nat st _ _); [| |done|done].
  - intros i now sched m a s _ _ HI _ Hc. apply Forall_app. split; [done|].
    by apply host_block_Forall.
  - done.
Qed.

(** ** Hours on the grid *)

Lemma onGrid_proper q q' : (q == q')%Q -> onGrid q -> onGrid q'.
Proof.
  intros E [[n Hn] Hb]. split; [exists n; by rewrite <- E|by rewrite <- E].
Qed.

Lemma onGrid_between q b :
  HalfUnit q -> onGrid b -> (0 <= q)%Q -> (q <= b)%Q -> onGrid q.
Proof.
  intros Hq [_ Hb] H0 Hle. split; [done|].
  apply Qabs_Qle_condition in Hb as [_ Hb].
  apply Qabs_Qle_condition. split; [|lra].
  assert (0 <= hoursLimit)%Q by (unfold hoursLimit; lra). lra.
Qed.

Lemma onGrid_0 : onGrid 0.
Proof. split; [apply HalfUnit_0|]. by vm_compute. Qed.

(** On the grid one step of the greedy loop does not round: the chunk is
    [min(2, remaining, capacity left)], it is taken from the remaining hours
    and added to the hours of the day as it is, and the state stays on the
    grid. *)
Lemma grid_step maxDailyHours m a k :
  exactOnGrid h -> onGrid maxDailyHours -> gridInv m a ->
  (a < maxDailyHours)%Q ->
  let r := getRemaining m k in
  let c := OnHost.chunkOf h r maxDailyHours a in
  (0 < c)%Q ->
  (c == chunkOf r maxDailyHours a)%Q
  /\ (rnd h (r - c) == r - c)%Q
  /\ (rnd h (a + c) == a + c)%Q
  /\ gridInv (<[k := rnd h (r - c)]> m) (rnd h (a + c)).
Proof.
  intros Hexact Hmax (Hm & Ha & Ha0) Hlt r c Hc.
  assert (rnd h (maxDailyHours - a) == maxDailyHours - a)%Q as E1.
  { apply Hexact. apply (onGrid_between _ maxDailyHours); [|done|lra|lra].
    apply HalfUnit_minus; [apply Hmax|apply Ha]. }
  assert (c == chunkOf r maxDailyHours a)%Q as Ec.
  { subst c. unfold OnHost.chunkOf, chunkOf. by rewrite E1. }
  pose proof (chunkOf_le_remaining r maxDailyHours a) as Hcr.
  pose proof (chunkOf_le_capacity r maxDailyHours a) as Hcm.
  assert (HalfUnit c) as Hhc.
  { destruct (HalfUnit_chunkOf r maxDailyHours a) as [n Hn];
      [apply Hm|apply Hmax|apply Ha|]. exists n. by rewrite Ec. }
  assert (onGrid (r - c)) as Hrc.
  { apply (onGrid_between _ r); [|apply Hm|lra|lra].
    apply HalfUnit_minus; [apply Hm|done]. }
  assert (onGrid (a + c)) as Hac.
  { apply (onGrid_between _ maxDailyHours); [|done|lra|lra].
    apply HalfUnit_plus; [apply Ha|done]. }
  pose proof (Hexact _ Hrc) as E2. pose proof (Hexact _ Hac) as E3.
  split; [done|]. split; [done|]. split; [done|].
  split; [|split].
  - intros k'. rewrite getRemaining_insert.
    destruct (decide (k = k')); [|apply Hm].
    apply (onGrid_proper (r - c)); [by symmetry|done].
  - apply (onGrid_proper (a + c)); [by symmetry|done].
  - lra.
Qed.

(** The rule for invariants on a host that is exact on the grid: there a
    step of the greedy loop can be taken without its roundings. *)
Section ExactRun.
Variables (sortedSubjects : list Subject) (maxDailyHours : Q) (days : nat).
Hypothesis Hexact : exactOnGrid h.
Hypothesis Hmax : onGrid maxDailyHours.
Variable Inv : nat -> Z -> list ScheduleItem -> gmap Z Q -> Q -> Prop.

Hypothesis Inv_block : forall i now sched m a s c r' a',
  (i < days)%nat -> s ∈ sortedSubjects ->
  Inv i now sched m a ->
  (a < maxDailyHours)%Q -> (0 < c)%Q ->
  (c == chunkOf (getRemaining m (id s)) maxDailyHours a)%Q ->
  (r' == getRemaining m (id s) - c)%Q ->
  (a' == a + c)%Q ->
  Inv i now (sched ++ OnHost.block h now s c) (<[id s := r']> m) a'.

Hypothesis Inv_next : forall i now sched m a,
  (i < days)%nat ->
  Inv i now sched m a -> Inv (S i) (OnHost.setDate h now 1) sched m 0%Q.

Lemma host_days_loop_exact n i st :
  (i + n <= days)%nat ->
  Inv i (currentDate st) (schedule st) (remainingHoursMap st) 0%Q ->
  gridInv (remainingHoursMap st) 0 ->
  let st' := OnHost.days_loop h n sortedSubjects maxDailyHours st in
  Inv (i + n) (currentDate st') (schedule st') (remainingHoursMap st') 0%Q
  /\ gridInv (remainingHoursMap st') 0.
Proof.
  intros Hle HI HG.
  apply (host_days_loop_invariant sortedSubjects maxDailyHours days
           (fun i now sched m a => Inv i now sched m a /\ gridInv m a));
    [| |done|done].
  - intros j now sched m a s Hj Hs [HI' HG'] Ha Hc.
    destruct (grid_step maxDailyHours m a (id s) Hexact Hmax HG' Ha Hc)
      as (Ec & E2 & E3 & HG'').
    split; [|done]. by apply (Inv_block j now sched m a s).
  - intros j now sched m a Hj [HI' (Hm & _ & _)].
    split; [by apply (Inv_next j now sched m a)|].
    split; [done|]. split; [apply onGrid_0|lra].
Qed.
End ExactRun.

Lemma initRemaining_onGrid subjects k :
  Forall (fun s => onGrid (estimatedHours s)) subjects ->
  onGrid (getRemaining (initRemaining (mergeSortSubjects subjects)) k).
Proof.
  intros Hall. unfold getRemaining. rewrite initRemaining_lookup.
  destruct (last _) as [s|] eqn:Hlast; cbn; [|apply onGrid_0].
  apply last_Some_elem_of, list_elem_of_filter in Hlast as [_ Hin].
  rewrite mergeSortSubjects_Permutation in Hin.
  by eapply Forall_forall in Hall.
Qed.

Lemma initState_gridInv subjects startDate :
  Forall (fun s => onGrid (estimatedHours s)) subjects ->
  gridInv (remainingHoursMap (initState subjects startDate)) 0.
Proof.
  intros Hall. split; [|split; [apply onGrid_0|lra]].
  intros k. by apply initRemaining_onGrid.
Qed.

(** ** Days of 24 hours *)

Lemma steady_setDate startDate i k :
  steady h startDate -> (i < totalDaysToPlan)%nat ->
  k = 1 \/ k = 3 \/ k = 7 ->
  OnHost.setDate h (addDays startDate (Z.of_nat i)) k
  = addDays (addDays startDate (Z.of_nat i)) k.
Proof.
  intros Hsteady Hi Hk. rewrite Hsteady, addDays_addDays; [done|lia|done].
Qed.

(** ** Daily capacity *)

Lemma capacityInv_step maxDailyHours d now sched m a s c r' a' :
  capacityInv maxDailyHours d now sched m a ->
  (c == chunkOf (getRemaining m (id s)) maxDailyHours a)%Q ->
  (a' == a + c)%Q ->
  capacityInv maxDailyHours d now
    (sched ++ OnHost.block h now s c) (<[id s := r']> m) a'.
Proof.
  intros (Hle & Heq & Hzero) Ec Ea.
  pose proof (chunkOf_le_capacity (getRemaining m (id s)) maxDailyHours a) as Hc.
  assert (studyOn d (sched ++ OnHost.block h now s c)
          == studyOn d sched + if decide (toISODate now = d) then c else 0)%Q
    as Hsum by (by rewrite studyOn_app, host_studyOn_block).
  unfold capacityInv.
  destruct (decide (toISODate now = d)) as [E|E].
  - specialize (Heq E). repeat split; [lra|intros; lra|intros; lia].
  - rewrite Qplus_0_r in Hsum.
    repeat split; [lra|done|intros; rewrite Hsum; auto].
Qed.

Lemma capacityInv_tomorrow maxDailyHours d now now' sched m a :
  toISODate now' = toISODate now + 1 ->
  capacityInv maxDailyHours d now sched m a ->
  capacityInv maxDailyHours d now' sched m 0.
Proof.
  intros Hnext (Hle & Heq & Hzero). unfold capacityInv.
  rewrite Hnext. repeat split; [done| |].
  - intros E. apply Hzero. lia.
  - intros E. apply Hzero. lia.
Qed.
End HostFacts.

(** ** Hosts *)

Lemma roundHalfEven_Z x z : (x == inject_Z z)%Q -> roundHalfEven x = z.
Proof.
  intros Hx. unfold roundHalfEven.
  assert (Qfloor x = z) as -> by (rewrite Hx; apply Qfloor_Z).
  assert (x - inject_Z z == 0)%Q as -> by (rewrite Hx; ring).
  reflexivity.
Qed.

Lemma inject_Z_pow2_pos n : 0 <= n -> (0 < inject_Z (2 ^ n))%Q.
Proof.
  intros Hn. change 0%Q with (inject_Z 0). rewrite <- Zlt_Qlt.
  by apply Z.pow_pos_nonneg.
Qed.

(** A value whose multiple of the least subnormal is an integer of at most
    53 significant bits is a binary64 value: rounding does not change it. *)
Lemma binary64_exact q M :
  (q * inject_Z (2 ^ 1074) == inject_Z M)%Q ->
  (2 ^ Z.max 0 (Z.log2 (Z.abs M) - 52) | M) ->
  (binary64 q == q)%Q.
Proof.
  intros Hq Hdiv. unfold binary64.
  assert (Qfloor (Qabs (q * inject_Z (2 ^ 1074))) = Z.abs M) as ->.
  { rewrite Hq. apply Qfloor_Z. }
  set (s := Z.max 0 (Z.log2 (Z.abs M) - 52)) in *.
  destruct Hdiv as [z Hz].
  pose proof (inject_Z_pow2_pos s ltac:(lia)) as Hs.
  pose proof (inject_Z_pow2_pos 1074 ltac:(lia)) as Hsub.
  rewrite (roundHalfEven_Z _ z).
  - rewrite Qred_correct, <- Hz, <- Hq. field. lra.
  - rewrite Hq, Hz, inject_Z_mult. field. lra.
Qed.

(** The whole and half units up to [2 ^ 52] are binary64 values. *)
Lemma binary64_onGrid q : onGrid q -> (binary64 q == q)%Q.
Proof.
  intros [[n Hn] Hb].
  assert (Z.abs n <= 2 ^ 53) as Habs.
  { rewrite Hn in Hb. change (Qabs (n # 2)) with (Z.abs n # 2) in Hb.
    unfold Qle, hoursLimit in Hb. cbn in Hb.
    change (2 ^ 53) with 9007199254740992. lia. }
  apply (binary64_exact q (n * 2 ^ 1073)).
  { rewrite Hn, inject_Z_mult. change (2 ^ 1074) with (2 * 2 ^ 1073).
    rewrite inject_Z_mult. unfold Qeq. cbn. lia. }
  rewrite Z.abs_mul, (Z.abs_eq (2 ^ 1073)) by (apply Z.pow_nonneg; lia).
  destruct (Z.eq_dec n 0) as [->|Hn0]; [exists 0; lia|].
  rewrite Z.log2_mul_pow2 by lia.
  destruct (Z.eq_dec (Z.abs n) (2 ^ 53)) as [E|E].
  - rewrite E, Z.log2_pow2 by lia.
    change (Z.max 0 (1073 + 53 - 52)) with 1074.
    assert (exists k, n = 2 * k) as [k ->].
    { change (2 ^ 53) with 9007199254740992 in E.
      destruct (Z.abs_spec n) as [[_ Hn']|[_ Hn']];
        [exists 4503599627370496|exists (-4503599627370496)]; lia. }
    exists k. replace (2 ^ 1074) with (2 * 2 ^ 1073) by reflexivity. ring.
  - assert (Z.log2 (Z.abs n) < 53) as Hlog.
    { apply Z.log2_lt_pow2; lia. }
    set (s := Z.max 0 (1073 + Z.log2 (Z.abs n) - 52)).
    assert (0 <= s <= 1073) as Hs.
    { pose proof (Z.log2_nonneg (Z.abs n)). lia. }
    exists (n * 2 ^ (1073 - s)).
    rewrite <- Z.mul_assoc, <- Z.pow_add_r by lia. do 2 f_equal. lia.
Qed.

Lemma binary64_exactOnGrid zone : exactOnGrid (mkHost binary64 zone).
Proof. intros q Hq. by apply binary64_onGrid. Qed.

Lemma steady_fixedOffset rounding offset startDate :
  steady (mkHost rounding (fixedOffset offset)) startDate.
Proof.
  intros d k _ _. unfold OnHost.setDate, fixedOffset, addDays. cbn. lia.
Qed.

(** After the clocks have changed, New York keeps its offset for the next
    months. *)
Lemma steady_newYork2026 rounding startDate :
  parseISODate 20520 + 7 * 3600000 <= startDate ->
  steady (mkHost rounding newYork2026) startDate.
Proof.
  intros Hstart d k Hd Hk.
  unfold OnHost.setDate, newYork2026, addDays. cbn [localTZA].
  unfold parseISODate, MS_PER_DAY in *.
  repeat match goal with
  | |- context [?a <? ?b] => destruct (Z.ltb_spec a b)
  end; lia.
Qed.

Lemma onGrid_6 : onGrid 6.
Proof. split; [by exists 12|by vm_compute]. Qed.

(** ** Daily capacity on a host *)

(** C1 (as amended).  On a host whose time zone keeps its offset while the
    plan is made and whose arithmetic is exact on the whole and half units
    up to [2 ^ 52] (binary64 is), for every input whose [estimatedHours]
    and positive [maxDailyHours] are such units, and for every calendar day
    [d]: the hours of the [study] items that [generateSchedule] places on
    [d] sum to at most [maxDailyHours]. *)
Theorem C1_daily_capacity h subjects startDate maxDailyHours d :
  steady h startDate -> exactOnGrid h ->
  onGrid maxDailyHours ->
  Forall (fun s => onGrid (estimatedHours s)) subjects ->
  (0 < maxDailyHours)%Q ->
  (studyOn d (OnHost.generateSchedule h subjects startDate maxDailyHours)
   <= maxDailyHours)%Q.
Proof.
  intros Hsteady Hexact Hmax Hest Hpos.
  unfold OnHost.generateSchedule, OnHost.runDays.
  destruct (host_days_loop_exact h (mergeSortSubjects subjects) maxDailyHours
              totalDaysToPlan Hexact Hmax
              (fun i now sched m a =>
                 now = addDays startDate (Z.of_nat i)
                 /\ capacityInv maxDailyHours d now sched m a))
    with (n := totalDaysToPlan) (i := 0%nat)
         (st := initState subjects startDate)
    as [[_ [Hle _]] _]; [| |done| | |exact Hle].
  - intros i now sched m a s c r' a' _ _ [Hnow HI] _ _ Ec _ Ea.
    split; [done|]. by eapply capacityInv_step.
  - intros i now sched m a Hi [-> HI].
    rewrite steady_setDate by auto. split.
    + rewrite addDays_addDays. f_equal. lia.
    + eapply capacityInv_tomorrow; [|exact HI]. apply toISODate_addDays.
  - split; [unfold addDays; cbn; lia|].
    split; [|split; intros _]; unfold studyOn; cbn; [lra|reflexivity..].
  - by apply initState_gridInv.
Qed.

Lemma C1_daily_capacity_witness :
  (0 < 6)%Q
  /\ (studyOn 0
        (OnHost.generateSchedule Examples.kolkataHost [Examples.solo]
           Examples.day0 6) <= 6)%Q.
Proof.
  split; [reflexivity|].
  apply C1_daily_capacity;
    [apply steady_fixedOffset|apply binary64_exactOnGrid|apply onGrid_6
    | |reflexivity].
  repeat constructor; [by exists 8|by vm_compute].
Defined.

(** C1, the claim as stated, fails on two counts.  In New York, from
    2026-03-08T00:30Z, the first [setDate] moves the clock by 23 hours: two
    days of the loop print the same date, and four hours of study are
    placed on it at a capacity of two.  And with [0.3], [2], [2] and [5]
    hours of work at a capacity of six, the chunks of the first day are the
    binary64 values [0.3], [2], [2] and [1.7000000000000002], more than six
    hours together. *)
Lemma C1_counterexample :
  (0 < 2)%Q
  /\ ~ (studyOn 20520
          (OnHost.generateSchedule Examples.newYorkHost [Examples.spring]
             Examples.eveOfChange 2) <= 2)%Q
  /\ (0 < 6)%Q
  /\ ~ (studyOn 0
          (OnHost.generateSchedule Examples.utcHost Examples.uneven
             Examples.day0 6) <= 6)%Q.
Proof.
  split; [reflexivity|]. split; [vm_compute; intros H; by apply H|].
  split; [reflexivity|]. vm_compute; intros H; by apply H.
Qed.

(** ** The budget of an id on a host *)

Section HostBudget.
Variable h : Host.
Variables (subjects : list Subject) (startDate : Z) (maxDailyHours : Q).
Hypothesis Hexact : exactOnGrid h.
Hypothesis Hmax : onGrid maxDailyHours.
Hypothesis Hest : Forall (fun s => onGrid (estimatedHours s)) subjects.

Lemma budgetInv_step k r0 now sched m a s c r' a' :
  budgetInv k r0 now sched m a ->
  (c == chunkOf (getRemaining m (id s)) maxDailyHours a)%Q ->
  (r' == getRemaining m (id s) - c)%Q ->
  budgetInv k r0 now
    (sched ++ OnHost.block h now s c) (<[id s := r']> m) a'.
Proof.
  intros [Hsum Hpos] Ec Er.
  pose proof (chunkOf_le_remaining (getRemaining m (id s)) maxDailyHours a) as Hc.
  assert (studyFor k (sched ++ OnHost.block h now s c)
          == studyFor k sched + if decide (id s = k) then c else 0)%Q
    as Hst by (by rewrite studyFor_app, host_studyFor_block).
  unfold budgetInv. rewrite getRemaining_insert.
  destruct (decide (id s = k)) as [<-|E].
  - split; [lra|]. intros H0. specialize (Hpos H0). lra.
  - split; [lra|]. done.
Qed.

Lemma host_budget_per_id k n :
  let st := OnHost.runDays h n subjects startDate maxDailyHours in
  let r0 := getRemaining (initRemaining (mergeSortSubjects subjects)) k in
  ((studyFor k (schedule st) + getRemaining (remainingHoursMap st) k == r0)%Q
   /\ ((0 <= r0)%Q -> (0 <= getRemaining (remainingHoursMap st) k)%Q))
  /\ gridInv (remainingHoursMap st) 0.
Proof.
  refine (host_days_loop_exact h (mergeSortSubjects subjects) maxDailyHours n
            Hexact Hmax
            (fun _ => budgetInv k
               (getRemaining (initRemaining (mergeSortSubjects subjects)) k))
            _ _ n 0%nat (initState subjects startDate) _ _ _).
  - intros i now sched m a s c r' a' _ _ HI _ _ Ec Er _.
    by eapply budgetInv_step.
  - done.
  - done.
  - split; [|done]. unfold studyFor. cbn. lra.
  - by apply initState_gridInv.
Qed.

Lemma host_remaining_nonincreasing k n :
  (getRemaining
     (remainingHoursMap
        (OnHost.runDays h (S n) subjects startDate maxDailyHours)) k
   <= getRemaining
        (remainingHoursMap
           (OnHost.runDays h n subjects startDate maxDailyHours)) k)%Q.
Proof.
  destruct (host_budget_per_id k n) as [_ HG].
  unfold OnHost.runDays in *. rewrite host_days_loop_succ.
  set (st := OnHost.days_loop h n _ _ _) in *.
  refine (proj1 (host_days_loop_exact h (mergeSortSubjects subjects)
                   maxDailyHours 1 Hexact Hmax
                   (fun _ _ _ m _ =>
                      (getRemaining m k
                       <= getRemaining (remainingHoursMap st) k)%Q)
                   _ _ 1%nat 0%nat st _ _ HG)).
  - intros i now sched m a s c r' a' _ _ HI _ Hc _ Er _.
    rewrite getRemaining_insert.
    destruct (decide (id s = k)) as [<-|E]; [lra|done].
  - done.
  - done.
  - lra.
Qed.
End HostBudget.

(** C2 (as amended).  On a host whose arithmetic is exact on the whole and
    half units up to [2 ^ 52] (binary64 is), for every input whose
    [estimatedHours] and [maxDailyHours] are such units, and every subject
    in it whose id no other entry shares and whose [estimatedHours] is
    non-negative: the [study] hours emitted under its id stay within its
    [estimatedHours] at every prefix of the plan; its remaining-hours value
    starts at [estimatedHours], never grows from one day to the next, is
    never negative, and together with the hours already given out it always
    adds up to [estimatedHours]. *)
Theorem C2_study_within_estimate h subjects startDate maxDailyHours subj :
  exactOnGrid h -> onGrid maxDailyHours ->
  Forall (fun s => onGrid (estimatedHours s)) subjects ->
  subj ∈ subjects -> idUnshared subjects subj ->
  (0 <= estimatedHours subj)%Q ->
  let remaining n :=
    getRemaining
      (remainingHoursMap
         (OnHost.runDays h n subjects startDate maxDailyHours)) (id subj) in
  (forall pre,
      pre `prefix_of`
        OnHost.generateSchedule h subjects startDate maxDailyHours ->
      (studyFor (id subj) pre <= estimatedHours subj)%Q)
  /\ remaining 0%nat = estimatedHours subj
  /\ forall n,
      (0 <= remaining n)%Q
      /\ (remaining (S n) <= remaining n)%Q
      /\ (studyFor (id subj)
            (schedule (OnHost.runDays h n subjects startDate maxDailyHours))
          + remaining n == estimatedHours subj)%Q.
Proof.
  intros Hexact Hmax Hgrid HS Hun Hest remaining.
  pose proof (initRemaining_unshared subjects subj HS Hun) as Hinit.
  assert (forall n,
    (0 <= remaining n)%Q
    /\ (studyFor (id subj)
          (schedule (OnHost.runDays h n subjects startDate maxDailyHours))
        + remaining n == estimatedHours subj)%Q) as Hbudget.
  { intros n.
    destruct (host_budget_per_id h subjects startDate maxDailyHours
                Hexact Hmax Hgrid (id subj) n) as [[Hsum Hpos] _].
    rewrite Hinit in Hsum, Hpos. split; [by apply Hpos|exact Hsum]. }
  split; [|split].
  - intros pre Hpre.
    eapply Qle_trans.
    { apply studyFor_prefix; [|exact Hpre].
      apply host_positiveHours. constructor. }
    destruct (Hbudget totalDaysToPlan) as [H0 Hsum].
    unfold OnHost.generateSchedule. lra.
  - exact Hinit.
  - intros n. destruct (Hbudget n) as [H0 Hsum].
    split; [done|]. split; [|done].
    by apply host_remaining_nonincreasing.
Qed.

Lemma C2_study_within_estimate_witness :
  Examples.solo ∈ [Examples.solo]
  /\ (0 <= estimatedHours Examples.solo)%Q
  /\ (studyFor (id Examples.solo)
        (OnHost.generateSchedule Examples.utcHost [Examples.solo]
           Examples.day0 6)
      <= estimatedHours Examples.solo)%Q.
Proof.
  assert (Examples.solo ∈ [Examples.solo]) as Hin by (by left).
  assert (0 <= estimatedHours Examples.solo)%Q as Hest by (by vm_compute).
  split; [exact Hin|]. split; [exact Hest|].
  refine (proj1 (C2_study_within_estimate Examples.utcHost [Examples.solo]
                   Examples.day0 6 Examples.solo
                   (binary64_exactOnGrid _) onGrid_6 _ Hin _ Hest) _ _);
    [| |done].
  - repeat constructor; [by exists 8|by vm_compute].
  - intros s' Hs' _. by apply list_elem_of_singleton in Hs'.
Defined.

(** C2, the claim as stated, fails when two entries share an id: the map
    keeps one value for the id, here the ten hours of the entry with the
    later exam, and the entry of two hours receives six hours of study (the
    id as a whole ten).  It also fails through rounding: one subject of
    [1.5] hours at [0.4] hours a day receives the binary64 chunks [0.4],
    [0.4], [0.4] and [0.30000000000000004], more than [1.5] hours
    together. *)
Lemma C2_counterexample :
  let subjects := [Examples.longA; Examples.shortB] in
  let plan := generateSchedule subjects Examples.day0 6 in
  let rounded :=
    OnHost.generateSchedule Examples.utcHost [Examples.sesqui] Examples.day0
      (binary64 (2 # 5)) in
  Examples.shortB ∈ subjects
  /\ (0 <= estimatedHours Examples.shortB)%Q
  /\ ~ (studyFor (id Examples.shortB) plan <= estimatedHours Examples.shortB)%Q
  /\ ~ (sumHours
          (filter (fun it => type it = study
                             /\ subjectName it = name Examples.shortB) plan)
        <= estimatedHours Examples.shortB)%Q
  /\ ~ (studyFor (id Examples.sesqui) rounded
        <= estimatedHours Examples.sesqui)%Q.
Proof.
  split; [apply elem_of_cons; right; by left|].
  split; [by vm_compute|].
  repeat split; vm_compute; intros H; by apply H.
Qed.

(** ** Entries that share an id, on a host *)

(** C7 (as amended).  Entries that carry the same id are not merged: on
    every day each entry of the sorted list whose id has hours remaining is
    inserted into the queue as a cell of its own.  But they share one
    remaining-hours value.  On a host whose arithmetic is exact on the whole
    and half units up to [2 ^ 52], for inputs in such units, that value
    starts at the [estimatedHours] of the entry that comes last under this
    id in the sorted list, every study chunk emitted under the id is taken
    from it, and so the study hours of all these entries together never
    exceed that one estimate. *)
Theorem C7_shared_budget h subjects startDate maxDailyHours k s :
  exactOnGrid h -> onGrid maxDailyHours ->
  Forall (fun s => onGrid (estimatedHours s)) subjects ->
  last (filter (fun x => id x = k) (mergeSortSubjects subjects)) = Some s ->
  (0 <= estimatedHours s)%Q ->
  let remaining n :=
    getRemaining
      (remainingHoursMap
         (OnHost.runDays h n subjects startDate maxDailyHours)) k in
  (forall m now,
      OnHost.buildQueue h (mergeSortSubjects subjects) m now ≡ₚ
      (fun x => (OnHost.priorityOf h x now, x))
      <$> filter (fun x => Qltb 0 (getRemaining m (id x)) = true)
            (mergeSortSubjects subjects))
  /\ remaining 0%nat = estimatedHours s
  /\ (forall n,
        (0 <= remaining n)%Q
        /\ (studyFor k
              (schedule (OnHost.runDays h n subjects startDate maxDailyHours))
            + remaining n == estimatedHours s)%Q)
  /\ (studyFor k (OnHost.generateSchedule h subjects startDate maxDailyHours)
      <= estimatedHours s)%Q.
Proof.
  intros Hexact Hmax Hgrid Hlast Hest remaining.
  assert (getRemaining (initRemaining (mergeSortSubjects subjects)) k
          = estimatedHours s) as Hinit.
  { unfold getRemaining. by rewrite initRemaining_lookup, Hlast. }
  assert (forall n,
    (0 <= remaining n)%Q
    /\ (studyFor k
          (schedule (OnHost.runDays h n subjects startDate maxDailyHours))
        + remaining n == estimatedHours s)%Q) as Hbudget.
  { intros n.
    destruct (host_budget_per_id h subjects startDate maxDailyHours
                Hexact Hmax Hgrid k n) as [[Hsum Hpos] _].
    rewrite Hinit in Hsum, Hpos. split; [by apply Hpos|exact Hsum]. }
  split; [intros m now; apply host_buildQueue_Permutation|].
  split; [exact Hinit|]. split; [exact Hbudget|].
  destruct (Hbudget totalDaysToPlan) as [H0 Hsum].
  unfold OnHost.generateSchedule. lra.
Qed.

Lemma C7_shared_budget_witness :
  let sorted := mergeSortSubjects [Examples.twin1; Examples.twin2] in
  length (OnHost.buildQueue Examples.utcHost sorted (initRemaining sorted)
            Examples.day0) = 2%nat
  /\ (studyFor 1
        (OnHost.generateSchedule Examples.utcHost
           [Examples.twin1; Examples.twin2] Examples.day0 6)
      <= 2)%Q.
Proof.
  intros sorted.
  destruct (C7_shared_budget Examples.utcHost [Examples.twin1; Examples.twin2]
              Examples.day0 6 1 Examples.twin1
              (binary64_exactOnGrid _) onGrid_6) as (Hqueue & _ & _ & Hle).
  - repeat constructor; first [by exists 4|by vm_compute].
  - reflexivity.
  - vm_compute. discriminate.
  - split; [|exact Hle]. subst sorted. by rewrite Hqueue.
Defined.

(** C7, the claim as stated, fails: two entries of two hours each get one
    chunk of two hours in all when they share an id, and two such chunks
    when their ids differ. *)
Lemma C7_counterexample :
  generateSchedule [Examples.twin1; Examples.twin2] Examples.day0 6
  <> map (renameId 2 1)
       (generateSchedule [Examples.twin1; Examples.twin2'] Examples.day0 6).
Proof.
  intros H. apply (f_equal length) in H. vm_compute in H. discriminate.
Qed.

(** ** Revision sessions on a host *)

Lemma host_block_blockOn h now s c :
  (forall k, k = 1 \/ k = 3 \/ k = 7 ->
             toISODate (OnHost.setDate h now k) = toISODate now + k) ->
  OnHost.block h now s c = blockOn (toISODate now, s, c).
Proof.
  intros Hk.
  unfold OnHost.block, blockOn, OnHost.revisionsFor, OnHost.addRevisions,
    OnHost.addRevision, revisionAt.
  cbn [foldl]. rewrite !Hk by auto.
  repeat match goal with
  | |- context [parseISODate ?d <? ?e] =>
      destruct (Z.ltb_spec (parseISODate d) e)
  end; reflexivity.
Qed.

Lemma host_revisionBeforeExam h subjects now s c :
  s ∈ subjects ->
  Forall (revisionBeforeExam subjects) (OnHost.block h now s c).
Proof.
  intros Hs. apply host_block_Forall; [intros [=]|].
  intros day Hday _. split; [done|]. exists s.
  repeat split; [done..|].
  intros E HE. rewrite HE in Hday. unfold parseISODate, MS_PER_DAY in Hday.
  cbn [date]. lia.
Qed.

(** C4 (as amended).  On a host whose time zone keeps its offset while the
    plan is made, the plan is a sequence of chunks: each chunk is a [study]
    item on a day [T] for a subject [S] of the input, followed by its
    [revision] items, for each [k] of 1, 3 and 7 one item of [0.5] hours for
    [S] on day [T + k] exactly when that day starts before [S.examDate];
    chunks do not share revision items.  On every host, every [revision]
    item of the plan has [0.5] hours and lies before the exam of its
    subject. *)
Theorem C4_revision_sessions h subjects startDate maxDailyHours :
  (steady h startDate ->
   exists events : list (Z * Subject * Q),
     OnHost.generateSchedule h subjects startDate maxDailyHours
     = events ≫= blockOn
     /\ Forall (fun ev => ev.1.2 ∈ subjects) events)
  /\ Forall (revisionBeforeExam subjects)
       (OnHost.generateSchedule h subjects startDate maxDailyHours).
Proof.
  split.
  - intros Hsteady.
    refine (proj2 (host_days_loop_invariant h (mergeSortSubjects subjects)
              maxDailyHours totalDaysToPlan
              (fun i now sched _ _ =>
                 now = addDays startDate (Z.of_nat i)
                 /\ exists events : list (Z * Subject * Q),
                      sched = events ≫= blockOn
                      /\ Forall (fun ev => ev.1.2 ∈ subjects) events)
              _ _ totalDaysToPlan 0%nat (initState subjects startDate) _ _));
      [| |done|].
    + intros i now sched m a s Hi Hs (-> & events & -> & Hall) _ _.
      split; [done|].
      exists (events ++ [(toISODate (addDays startDate (Z.of_nat i)), s,
                          OnHost.chunkOf h (getRemaining m (id s))
                            maxDailyHours a)]).
      split.
      * rewrite bind_app, host_block_blockOn.
        { cbn [mbind list_bind]. by rewrite app_nil_r. }
        intros k Hk. rewrite steady_setDate by done.
        apply toISODate_addDays.
      * apply Forall_app. split; [done|]. repeat constructor. cbn.
        by rewrite <- (mergeSortSubjects_Permutation subjects).
    + intros i now sched m a Hi (-> & Hev). split; [|done].
      rewrite steady_setDate by auto. rewrite addDays_addDays.
      f_equal. lia.
    + split; [unfold addDays; cbn; lia|]. by exists [].
  - refine (host_days_loop_invariant h (mergeSortSubjects subjects)
              maxDailyHours totalDaysToPlan
              (fun _ _ sched _ _ => Forall (revisionBeforeExam subjects) sched)
              _ _ totalDaysToPlan 0%nat (initState subjects startDate) _ _);
      [| |done|constructor].
    + intros i now sched m a s _ Hs HI _ _. apply Forall_app. split; [done|].
      apply host_revisionBeforeExam.
      by rewrite <- (mergeSortSubjects_Permutation subjects).
    + done.
Qed.

Lemma C4_revision_sessions_witness :
  exists events : list (Z * Subject * Q),
    OnHost.generateSchedule Examples.kolkataHost [Examples.solo]
      Examples.day0 6
    = events ≫= blockOn
    /\ Forall (fun ev => ev.1.2 ∈ [Examples.solo]) events.
Proof.
  apply (C4_revision_sessions Examples.kolkataHost [Examples.solo]
           Examples.day0 6).
  apply steady_fixedOffset.
Defined.

(** C4, the claim as stated, fails in New York from 2026-03-08T00:30Z: the
    revision dates are computed in local time, where the day after is 23
    hours away.  The two hours studied on 2026-03-08 are revised on the
    same day, two days and six days later; the day after, which is before
    the exam, has no revision. *)
Lemma C4_counterexample :
  let plan :=
    OnHost.generateSchedule Examples.newYorkHost [Examples.brief]
      Examples.eveOfChange 6 in
  plan = [mkItem 20520 1 "B" 2 study;
          mkItem 20520 1 "B" (1 # 2) revision;
          mkItem 20522 1 "B" (1 # 2) revision;
          mkItem 20526 1 "B" (1 # 2) revision]
  /\ parseISODate (20520 + 1) < examDate Examples.brief
  /\ mkItem (20520 + 1) 1 "B" (1 # 2) revision ∉ plan.
Proof.
  assert (OnHost.generateSchedule Examples.newYorkHost [Examples.brief]
            Examples.eveOfChange 6
          = [mkItem 20520 1 "B" 2 study;
             mkItem 20520 1 "B" (1 # 2) revision;
             mkItem 20522 1 "B" (1 # 2) revision;
             mkItem 20526 1 "B" (1 # 2) revision]) as Hplan
    by (vm_compute; reflexivity).
  cbv zeta. rewrite Hplan. split; [done|]. split; [reflexivity|].
  intros H. repeat (apply elem_of_cons in H as [H|H]; [discriminate|]).
  by apply elem_of_nil in H.
Qed.

(** ** The ideal host *)

Lemma ideal_setDate t k : OnHost.setDate ideal t k = addDays t k.
Proof. unfold OnHost.setDate, addDays, ideal, fixedOffset. cbn. lia. Qed.

Lemma ideal_diffDays s now : OnHost.diffDays ideal s now = diffDays s now.
Proof.
  unfold OnHost.diffDays, diffDays. f_equal. apply Qceiling_comp.
  cbn [rnd ideal]. rewrite Qmake_Qdiv. unfold Z.sub.
  by rewrite inject_Z_plus, inject_Z_opp.
Qed.

Lemma ideal_priorityOf s now : OnHost.priorityOf ideal s now = priorityOf s now.
Proof.
  unfold OnHost.priorityOf, priorityOf. cbn [rnd ideal].
  by rewrite ideal_diffDays.
Qed.

Lemma ideal_buildQueue sortedSubjects m now :
  OnHost.buildQueue ideal sortedSubjects m now = buildQueue sortedSubjects m now.
Proof.
  unfold OnHost.buildQueue, buildQueue. generalize (@nil (Q * Subject)).
  induction sortedSubjects as [|s l IH]; intros pq; cbn [foldl]; [done|].
  rewrite IH. do 2 f_equal. unfold OnHost.enqueue, enqueue.
  by rewrite ideal_diffDays, ideal_priorityOf.
Qed.

Lemma ideal_addRevisions now s sched :
  OnHost.addRevisions ideal now s sched = addRevisions now s sched.
Proof.
  unfold OnHost.addRevisions, addRevisions, OnHost.addRevision, addRevision.
  cbn [foldl]. by rewrite !ideal_setDate.
Qed.

Lemma ideal_allocate_loop fuel maxDailyHours now pq sched m a :
  OnHost.allocate_loop ideal fuel maxDailyHours now pq sched m a
  = allocate_loop fuel maxDailyHours now pq sched m a.
Proof.
  revert pq sched m a. induction fuel as [|fuel IH]; intros pq sched m a;
    cbn [OnHost.allocate_loop allocate_loop]; [done|].
  destruct (negb (isEmpty pq) && Qltb a maxDailyHours); [|done].
  destruct (extractMin pq) as [[subject|] pq']; [|done].
  change (OnHost.chunkOf ideal (getRemaining m (id subject)) maxDailyHours a)
    with (chunkOf (getRemaining m (id subject)) maxDailyHours a).
  cbn [rnd ideal].
  destruct (Qltb 0 _); [|apply IH].
  rewrite ideal_addRevisions. apply IH.
Qed.

Lemma ideal_days_loop n sortedSubjects maxDailyHours st :
  OnHost.days_loop ideal n sortedSubjects maxDailyHours st
  = days_loop n sortedSubjects maxDailyHours st.
Proof.
  revert st. induction n as [|n IH]; intros st; [done|].
  cbn [OnHost.days_loop days_loop]. rewrite IH. f_equal.
  unfold OnHost.dayStep, dayStep.
  rewrite ideal_buildQueue, ideal_allocate_loop, ideal_setDate.
  done.
Qed.


(** * Further properties of the code *)

(** ** The heap order of [MinHeap] *)

Section HeapOrder.
Context {T : Type}.
Implicit Types (h : list (Q * T)) (i j k c : nat).

Lemma parent_bounds j : (0 < j)%nat -> (2 * parent j + 1 <= j <= 2 * parent j + 2)%nat.
Proof.
  intros Hj. unfold parent.
  pose proof (Nat.div_mod_eq (j - 1) 2) as Hd.
  pose proof (Nat.mod_upper_bound (j - 1) 2). lia.
Qed.

Lemma parent_lt j : (0 < j)%nat -> (parent j < j)%nat.
Proof. intros Hj. pose proof (parent_bounds j Hj). lia. Qed.

Lemma parent_child_left c : parent (2 * c + 1) = c.
Proof. pose proof (parent_bounds (2 * c + 1)). lia. Qed.

Lemma parent_child_right c : parent (2 * c + 2) = c.
Proof. pose proof (parent_bounds (2 * c + 2)). lia. Qed.

Lemma parent_inv j c :
  (0 < j)%nat -> parent j = c -> j = (2 * c + 1)%nat \/ j = (2 * c + 2)%nat.
Proof. intros Hj <-. pose proof (parent_bounds j Hj). lia. Qed.

(** What [swap] leaves in each cell. *)
Lemma swap_lookup h i j a b k :
  h !! i = Some a -> h !! j = Some b ->
  swap h i j !! k =
  if decide (k = j) then Some a else if decide (k = i) then Some b else h !! k.
Proof.
  intros Hi Hj. unfold swap. rewrite Hi, Hj.
  apply lookup_lt_Some in Hi as Hil. apply lookup_lt_Some in Hj as Hjl.
  destruct (decide (k = j)) as [->|Hkj].
  - by rewrite list_lookup_insert_eq by (by rewrite length_insert).
  - rewrite list_lookup_insert_ne by done.
    destruct (decide (k = i)) as [->|Hki].
    + by rewrite list_lookup_insert_eq.
    + by rewrite list_lookup_insert_ne.
Qed.

Lemma heapUpTo_root h : heapUpTo h 0 -> isHeap h.
Proof. intros [H _] j c p Hj. apply H; [done|lia]. Qed.

Lemma heapDownFrom_settled h c :
  heapDownFrom h c ->
  (forall x y, h !! c = Some x -> h !! (2 * c + 1)%nat = Some y -> (x.1 <= y.1)%Q) ->
  (forall x y, h !! c = Some x -> h !! (2 * c + 2)%nat = Some y -> (x.1 <= y.1)%Q) ->
  isHeap h.
Proof.
  intros [H _] Hl Hr j x p Hj Hx Hp.
  destruct (decide (parent j = c)) as [E|E]; [|by eapply H].
  rewrite E in Hp.
  destruct (parent_inv j c Hj E) as [-> | ->]; [by eapply Hl|by eapply Hr].
Qed.

(** One step of the way up: after the swap of a cell with its more urgent
    child the hole moves to the parent. *)
Lemma heapUpTo_swap h c x p :
  (0 < c)%nat -> h !! c = Some x -> h !! parent c = Some p ->
  (x.1 < p.1)%Q -> heapUpTo h c -> heapUpTo (swap h c (parent c)) (parent c).
Proof.
  intros Hc Hx Hp Hlt [Hmain Hgrand].
  pose proof (parent_lt c Hc) as Hpc.
  assert (forall k, swap h c (parent c) !! k =
            if decide (k = parent c) then Some x
            else if decide (k = c) then Some p else h !! k) as Hsw
    by (intros k; by apply swap_lookup).
  split.
  - intros j y q Hj Hne. rewrite !Hsw.
    rewrite (decide_False (P := j = parent c)) by done.
    destruct (decide (j = c)) as [->|Hjc].
    + rewrite decide_True by done. intros [= <-] [= <-]. by apply Qlt_le_weak.
    + intros Hy. destruct (decide (parent j = parent c)) as [E|E].
      * intros [= <-]. apply Qlt_le_weak. eapply Qlt_le_trans; [exact Hlt|].
        eapply (Hmain j); [done|done|done|]. by rewrite E.
      * destruct (decide (parent j = c)) as [E'|E'].
        -- intros [= <-]. by eapply (Hgrand j).
        -- intros Hq. by eapply (Hmain j).
  - intros j y g Hj Hpp Hpar. rewrite !Hsw.
    pose proof (parent_lt (parent c) Hpp) as Hgp.
    rewrite (decide_False (P := parent (parent c) = parent c)) by lia.
    rewrite (decide_False (P := parent (parent c) = c)) by lia.
    rewrite (decide_False (P := j = parent c))
      by (pose proof (parent_lt j Hj); lia).
    destruct (decide (j = c)) as [->|Hjc].
    + intros [= <-] Hg. by eapply (Hmain (parent c)); [done|lia|done|].
    + intros Hy Hg. eapply Qle_trans.
      * by eapply (Hmain (parent c)); [done|lia|done|].
      * eapply (Hmain j); [done|done|done|]. by rewrite Hpar.
Qed.

Lemma heapifyUp_loop_isHeap fuel h c :
  (c <= fuel)%nat -> (c < length h)%nat -> heapUpTo h c ->
  isHeap (heapifyUp_loop fuel h c).
Proof.
  revert h c. induction fuel as [|fuel IH]; intros h c Hfuel Hlen Hup.
  { assert (c = 0)%nat as -> by lia. by apply heapUpTo_root. }
  cbn [heapifyUp_loop]. destruct (0 <? c)%nat eqn:Hc.
  2:{ apply Nat.ltb_ge in Hc. assert (c = 0)%nat as -> by lia.
      by apply heapUpTo_root. }
  apply Nat.ltb_lt in Hc. pose proof (parent_lt c Hc) as Hpc.
  destruct (lookup_lt_is_Some_2 h c Hlen) as [x Hx].
  destruct (lookup_lt_is_Some_2 h (parent c) ltac:(lia)) as [p Hp].
  fold (parent c). rewrite Hx, Hp.
  destruct (Qltb x.1 p.1) eqn:Hlt.
  - apply Qltb_lt in Hlt. apply IH; [lia|rewrite swap_length; lia|].
    by eapply heapUpTo_swap.
  - apply Qltb_ge in Hlt. destruct Hup as [Hmain _].
    intros j y q Hj Hy Hq. destruct (decide (j = c)) as [->|Hjc].
    + by simplify_eq.
    + by eapply Hmain.
Qed.

(** A heap with a new last cell is in order up to that cell. *)
Lemma heapUpTo_snoc h e : isHeap h -> heapUpTo (h ++ [e]) (length h).
Proof.
  intros Hh. split.
  - intros j x p Hj Hne Hx Hp.
    assert (j < length h)%nat as Hjl.
    { apply lookup_lt_Some in Hx. rewrite length_app in Hx. cbn in Hx. lia. }
    pose proof (parent_lt j Hj).
    rewrite lookup_app_l in Hx, Hp by lia. by eapply Hh.
  - intros j x g Hj Hc Hpar Hx _.
    apply lookup_lt_Some in Hx. rewrite length_app in Hx. cbn in Hx.
    pose proof (parent_bounds j Hj). lia.
Qed.

Lemma insert_isHeap p v h : isHeap h -> isHeap (insert p v h).
Proof.
  intros Hh. unfold insert, heapifyUp.
  rewrite length_app. cbn [length].
  replace (length h + 1 - 1)%nat with (length h) by lia.
  apply heapifyUp_loop_isHeap; [done|rewrite length_app; cbn; lia|].
  by apply heapUpTo_snoc.
Qed.

Lemma pick_none h a b : h !! a = None -> pick h a b = a.
Proof. intros Ha. unfold pick. rewrite Ha. by destruct (h !! b). Qed.

(** What one test of [heapifyDown] selects. *)
Lemma pick_spec h a b x :
  h !! a = Some x ->
  exists z, h !! pick h a b = Some z
    /\ (z.1 <= x.1)%Q
    /\ (forall y, h !! b = Some y -> (z.1 <= y.1)%Q)
    /\ (pick h a b = a \/ (pick h a b = b /\ (z.1 < x.1)%Q)).
Proof.
  intros Ha. unfold pick. rewrite Ha.
  destruct (h !! b) as [y|] eqn:Hb.
  - destruct (Qltb y.1 x.1) eqn:Hlt.
    + apply Qltb_lt in Hlt. exists y. split; [done|].
      split; [by apply Qlt_le_weak|]. split; [|by right].
      intros ? [= <-]. apply Qle_refl.
    + apply Qltb_ge in Hlt. exists x. split; [done|].
      split; [apply Qle_refl|]. split; [|by left].
      by intros ? [= <-].
  - exists x. split; [done|]. split; [apply Qle_refl|]. split; [done|by left].
Qed.

(** The cell that [heapifyDown] selects among a cell and its two children. *)
Lemma smallest_spec h c x :
  h !! c = Some x ->
  let s := pick h (pick h c (2 * c + 1)) (2 * c + 2) in
  exists z, h !! s = Some z
    /\ (z.1 <= x.1)%Q
    /\ (forall y, h !! (2 * c + 1)%nat = Some y -> (z.1 <= y.1)%Q)
    /\ (forall y, h !! (2 * c + 2)%nat = Some y -> (z.1 <= y.1)%Q)
    /\ (s = c
        \/ ((s = (2 * c + 1)%nat \/ s = (2 * c + 2)%nat) /\ (z.1 < x.1)%Q)).
Proof.
  intros Hc s.
  destruct (pick_spec h c (2 * c + 1) x Hc) as (z1 & Hz1 & Hz1x & Hz1l & Hs1).
  destruct (pick_spec h (pick h c (2 * c + 1)) (2 * c + 2) z1 Hz1)
    as (z & Hz & Hzz1 & Hzr & Hs).
  exists z. split; [exact Hz|]. split; [by eapply Qle_trans|].
  split; [intros y Hy; eapply Qle_trans; [exact Hzz1|by apply Hz1l]|].
  split; [exact Hzr|].
  subst s. destruct Hs as [Hs|[Hs Hlt]].
  - rewrite Hs. destruct Hs1 as [Hs1|[Hs1 Hlt1]]; [by left|right].
    split; [by left|]. rewrite Hs, Hs1 in Hz. rewrite Hs1 in Hz1.
    by simplify_eq.
  - right. split; [by right|]. by eapply Qlt_le_trans.
Qed.

(** One step of the way down: after the swap of a cell with its most urgent
    child the hole moves to that child. *)
Lemma heapDownFrom_swap h c s x z :
  parent s = c -> (0 < s)%nat ->
  h !! c = Some x -> h !! s = Some z -> (z.1 < x.1)%Q ->
  (forall y, h !! (2 * c + 1)%nat = Some y -> (z.1 <= y.1)%Q) ->
  (forall y, h !! (2 * c + 2)%nat = Some y -> (z.1 <= y.1)%Q) ->
  heapDownFrom h c -> heapDownFrom (swap h c s) s.
Proof.
  intros Hps Hs Hx Hz Hlt Hl Hr [Hmain Hgrand].
  pose proof (parent_lt s Hs) as Hcs. rewrite Hps in Hcs.
  assert (forall k, swap h c s !! k =
            if decide (k = s) then Some x
            else if decide (k = c) then Some z else h !! k) as Hsw
    by (intros k; by apply swap_lookup).
  split.
  - intros j y q Hj Hne. rewrite !Hsw.
    rewrite (decide_False (P := parent j = s)) by done.
    destruct (decide (j = s)) as [->|Hjs].
    + rewrite Hps, decide_True by done. intros [= <-] [= <-].
      by apply Qlt_le_weak.
    + destruct (decide (j = c)) as [->|Hjc].
      * pose proof (parent_lt c Hj).
        rewrite (decide_False (P := parent c = c)) by lia.
        intros [= <-] Hq. by eapply (Hgrand s).
      * intros Hy. destruct (decide (parent j = c)) as [E|E].
        -- intros [= <-].
           destruct (parent_inv j c Hj E) as [-> | ->]; [by apply Hl|by apply Hr].
        -- intros Hq. by eapply (Hmain j).
  - intros j y g Hj _ Hpar. rewrite !Hsw.
    pose proof (parent_lt j Hj) as Hjs. rewrite Hpar in Hjs.
    rewrite (decide_False (P := j = s)) by lia.
    rewrite (decide_False (P := j = c)) by lia.
    rewrite Hps, (decide_False (P := c = s)) by lia.
    rewrite decide_True by done.
    intros Hy [= <-]. eapply (Hmain j); [done|lia|done|]. by rewrite Hpar.
Qed.

Lemma heapifyDown_loop_isHeap fuel h c :
  (length h <= fuel + c)%nat -> heapDownFrom h c ->
  isHeap (heapifyDown_loop fuel h c).
Proof.
  revert h c. induction fuel as [|fuel IH]; intros h c Hfuel Hdown.
  { cbn. apply (heapDownFrom_settled h c Hdown); intros x y Hx;
      apply lookup_lt_Some in Hx; lia. }
  cbn [heapifyDown_loop].
  destruct (h !! c) as [x|] eqn:Hx.
  2:{ rewrite !(pick_none h c) by done. rewrite Nat.eqb_refl. cbn.
      apply (heapDownFrom_settled h c Hdown); intros ? ? Hx'; by simplify_eq. }
  destruct (smallest_spec h c x Hx) as (z & Hz & Hzx & Hzl & Hzr & Hs).
  set (s := pick h (pick h c (2 * c + 1)) (2 * c + 2)) in *.
  destruct Hs as [Hs|[Hs Hlt]].
  - rewrite Hs, Nat.eqb_refl. cbn. rewrite Hs in Hz.
    apply (heapDownFrom_settled h c Hdown); intros x0 y Hx0 Hy;
      simplify_eq; auto.
  - assert (parent s = c /\ (0 < s)%nat /\ (c < s)%nat) as (Hps & Hs0 & Hcs).
    { destruct Hs as [-> | ->];
        rewrite ?parent_child_left, ?parent_child_right; lia. }
    assert ((s =? c)%nat = false) as -> by (apply Nat.eqb_neq; lia). cbn.
    apply IH; [rewrite swap_length; lia|].
    by eapply heapDownFrom_swap.
Qed.

(** The last cell moved to the root leaves a heap in order below the root. *)
Lemma heapDownFrom_moved (e0 : Q * T) (rest : list (Q * T)) (l : Q * T) :
  isHeap (e0 :: rest ++ [l]) -> heapDownFrom (l :: rest) 0.
Proof.
  intros Hh. split; [|intros; lia].
  assert (forall k, (0 < k)%nat -> (k < S (length rest))%nat ->
            (e0 :: rest ++ [l]) !! k = (l :: rest) !! k) as Hsame.
  { intros [|k] Hk Hlen; [lia|].
    change ((rest ++ [l]) !! k = rest !! k). apply lookup_app_l. lia. }
  intros j x p Hj Hpar Hx Hp.
  assert (0 < parent j)%nat as Hpj by lia.
  pose proof (parent_lt j Hj) as Hlt.
  apply lookup_lt_Some in Hx as Hjl. cbn [length] in Hjl.
  apply (Hh j x p Hj); rewrite Hsame; done || lia.
Qed.

Lemma isHeap_nil : isHeap (@nil (Q * T)).
Proof. intros j c p _ Hc. by rewrite lookup_nil in Hc. Qed.

Lemma extractMin_isHeap h v h' :
  isHeap h -> extractMin h = (Some v, h') -> isHeap h'.
Proof.
  intros Hh. destruct h as [|e0 rest]; [done|].
  destruct (exists_last_or_nil rest) as [->|(rest' & l & ->)].
  - intros [= _ <-]. apply isHeap_nil.
  - rewrite extractMin_snoc. intros [= _ <-].
    unfold heapifyDown. apply heapifyDown_loop_isHeap; [lia|].
    by eapply heapDownFrom_moved.
Qed.

(** In a heap no cell is more urgent than the root. *)
Lemma isHeap_root_min h r :
  isHeap h -> h !! 0%nat = Some r ->
  forall e, e ∈ h -> (r.1 <= e.1)%Q.
Proof.
  intros Hh Hr e [i Hi]%list_elem_of_lookup. revert e Hi.
  induction i as [i IH] using lt_wf_ind. intros e Hi.
  destruct (decide (i = 0)%nat) as [->|Hne].
  { simplify_eq. apply Qle_refl. }
  assert (0 < i)%nat as Hpos by lia.
  pose proof (parent_lt i Hpos) as Hlt.
  destruct (lookup_lt_is_Some_2 h (parent i)) as [p Hp].
  { apply lookup_lt_Some in Hi. lia. }
  eapply Qle_trans; [by apply (IH (parent i) Hlt p)|].
  by eapply Hh.
Qed.

Lemma extractMin_root h v h' :
  extractMin h = (Some v, h') ->
  exists p, h !! 0%nat = Some (p, v) /\ h ≡ₚ (p, v) :: h'.
Proof.
  destruct h as [|[p0 v0] rest]; [done|].
  destruct (exists_last_or_nil rest) as [->|(rest' & l & ->)].
  - intros [= <- <-]. by exists p0.
  - rewrite extractMin_snoc. intros [= <- <-]. exists p0. split; [done|].
    unfold heapifyDown. rewrite heapifyDown_loop_Permutation.
    by rewrite (Permutation_app_comm rest' [l]).
Qed.

(** X1.  [insert] keeps the heap order and adds exactly the new cell: the
    heap after the call is a rearrangement of the old cells and the new one,
    and it is not empty. *)
Theorem X1_insert_keeps_heap p v h :
  isHeap h ->
  isHeap (insert p v h)
  /\ insert p v h ≡ₚ (p, v) :: h
  /\ isEmpty (insert p v h) = false.
Proof.
  intros Hh. split; [by apply insert_isHeap|].
  split; [apply insert_Permutation|].
  unfold isEmpty. rewrite (Permutation_length (insert_Permutation p v h)).
  reflexivity.
Qed.

(** X2.  [extractMin] on a heap in order returns a value of least priority,
    removes exactly that cell and leaves a heap in order. *)
Theorem X2_extractMin_least h v h' :
  isHeap h -> extractMin h = (Some v, h') ->
  exists p,
    h ≡ₚ (p, v) :: h'
    /\ (forall e, e ∈ h -> (p <= e.1)%Q)
    /\ isHeap h'.
Proof.
  intros Hh Hex.
  destruct (extractMin_root h v h' Hex) as (p & Hroot & Hperm).
  exists p. split; [exact Hperm|]. split; [|by eapply extractMin_isHeap].
  intros e He. by apply (isHeap_root_min h (p, v) Hh Hroot).
Qed.

(** X3.  [extractMin] returns [null] exactly on the empty heap, which it
    leaves empty; on any other heap it returns a value and the heap loses
    one cell. *)
Theorem X3_extractMin_empty h :
  (isEmpty h = true -> extractMin h = (None, []))
  /\ (isEmpty h = false ->
      exists v h', extractMin h = (Some v, h') /\ length h = S (length h')).
Proof.
  split.
  - destruct h; [done|]. discriminate.
  - intros Hne. destruct h as [|e0 rest]; [discriminate|].
    destruct (extractMin (e0 :: rest)) as [[v|] h'] eqn:Hex.
    + exists v, h'. split; [done|]. by eapply extractMin_length.
    + by apply extractMin_None in Hex.
Qed.

(** The cells of a heap in the order in which [extractMin] hands them out. *)
Lemma drain_sorted n h :
  length h = n -> isHeap h ->
  exists es, es ≡ₚ h /\ es.*2 = drain n h /\ StronglySorted Qle (es.*1).
Proof.
  revert h. induction n as [|n IH]; intros h Hlen Hh.
  { destruct h; [|done]. exists []. repeat split; constructor. }
  destruct h as [|e0 rest]; [done|].
  destruct (extractMin (e0 :: rest)) as [[v|] h'] eqn:Hex.
  2:{ by apply extractMin_None in Hex. }
  pose proof (extractMin_length _ _ _ Hex) as Hlen'.
  destruct (extractMin_root _ _ _ Hex) as (p & Hroot & Hperm).
  pose proof (extractMin_isHeap _ _ _ Hh Hex) as Hh'.
  destruct (IH h' ltac:(lia) Hh') as (es & Hes & Hvals & Hsorted).
  exists ((p, v) :: es). split; [by rewrite Hperm, Hes|].
  split; [cbn [drain]; rewrite Hex; cbn; by rewrite Hvals|].
  cbn. constructor; [done|].
  apply Forall_forall. intros q [e [-> He]]%list_elem_of_fmap.
  apply (isHeap_root_min _ (p, v) Hh Hroot).
  rewrite Hperm. right. by rewrite <- Hes.
Qed.

Lemma fromList_spec (l : list (Q * T)) : isHeap (fromList l) /\ fromList l ≡ₚ l.
Proof.
  unfold fromList. induction l as [|e l IH] using rev_ind.
  - split; [apply isHeap_nil|done].
  - rewrite foldl_snoc. destruct IH as [IH1 IH2]. split.
    + by apply insert_isHeap.
    + rewrite insert_Permutation, IH2. destruct e.
      by rewrite Permutation_app_comm.
Qed.

(** X4.  Cells inserted one by one and extracted until the heap is empty
    come out in ascending order of priority: the extracted values are the
    values of a rearrangement of the inserted cells that is sorted by
    priority. *)
Theorem X4_heap_sorts (l : list (Q * T)) :
  exists es,
    es ≡ₚ l
    /\ es.*2 = drain (length l) (fromList l)
    /\ StronglySorted Qle (es.*1).
Proof.
  destruct (fromList_spec l) as [Hh Hperm].
  destruct (drain_sorted (length l) (fromList l)) as (es & Hes & Hv & Hs);
    [by rewrite Hperm|done|].
  exists es. split; [by rewrite Hes|done].
Qed.
End HeapOrder.

Lemma X1_insert_keeps_heap_witness :
  isHeap (insert 1 "b" [(2 # 1, "a")])
  /\ insert 1 "b" [(2 # 1, "a")] ≡ₚ [(1 # 1, "b"); (2 # 1, "a")]
  /\ isEmpty (insert 1 "b" [(2 # 1, "a")]) = false.
Proof.
  apply (X1_insert_keeps_heap 1 "b" [(2 # 1, "a")]).
  apply (insert_isHeap 2 "a" []), isHeap_nil.
Defined.

Lemma X2_extractMin_least_witness :
  exists p,
    [(1 # 1, "b"); (2 # 1, "a"); (3 # 1, "c")] ≡ₚ (p, "b") :: [(2 # 1, "a"); (3 # 1, "c")]
    /\ (forall e, e ∈ [(1 # 1, "b"); (2 # 1, "a"); (3 # 1, "c")] -> (p <= e.1)%Q)
    /\ isHeap [(2 # 1, "a"); (3 # 1, "c")].
Proof.
  apply (X2_extractMin_least [(1 # 1, "b"); (2 # 1, "a"); (3 # 1, "c")]).
  - apply (insert_isHeap 3 "c" [(1 # 1, "b"); (2 # 1, "a")]).
    apply (insert_isHeap 1 "b" [(2 # 1, "a")]).
    apply (insert_isHeap 2 "a" []), isHeap_nil.
  - reflexivity.
Defined.

(** ** More about the plan on a host *)

(** X6.  Whatever the rounding and the time zone of the host, every item of
    the plan has positive hours. *)
Theorem X6_positive_hours_on_host h subjects startDate maxDailyHours :
  Forall positiveHours
    (OnHost.generateSchedule h subjects startDate maxDailyHours).
Proof. apply host_positiveHours. constructor. Qed.

(** X7.  With a daily capacity of zero or less the greedy loop never runs:
    the plan is empty on every host. *)
Theorem X7_no_capacity h subjects startDate maxDailyHours :
  (maxDailyHours <= 0)%Q ->
  OnHost.generateSchedule h subjects startDate maxDailyHours = [].
Proof.
  intros Hmax.
  refine (proj1 (host_days_loop_invariant h (mergeSortSubjects subjects)
            maxDailyHours totalDaysToPlan
            (fun _ _ sched _ a => sched = [] /\ (a == 0)%Q)
            _ _ totalDaysToPlan 0%nat (initState subjects startDate) _ _));
    [| |done|done].
  - intros i now sched m a s _ _ [_ Ha] Hlt _. lra.
  - by intros i now sched m a _ [-> _].
Qed.

Lemma X7_no_capacity_witness :
  OnHost.generateSchedule Examples.newYorkHost [Examples.spring]
    Examples.eveOfChange 0 = [].
Proof. apply X7_no_capacity. by vm_compute. Defined.

(** X9.  On a host whose time zone keeps its offset while the plan is made,
    every [study] item is dated on one of the thirty days that begin with
    the start date. *)
Theorem X9_study_within_horizon h subjects startDate maxDailyHours :
  steady h startDate ->
  Forall (fun it => type it = study ->
                    toISODate startDate <= date it
                    < toISODate startDate + Z.of_nat totalDaysToPlan)
    (OnHost.generateSchedule h subjects startDate maxDailyHours).
Proof.
  intros Hsteady.
  refine (proj2 (host_days_loop_invariant h (mergeSortSubjects subjects)
            maxDailyHours totalDaysToPlan
            (fun i now sched _ _ =>
               now = addDays startDate (Z.of_nat i)
               /\ Forall (fun it => type it = study ->
                    toISODate startDate <= date it
                    < toISODate startDate + Z.of_nat totalDaysToPlan) sched)
            _ _ totalDaysToPlan 0%nat (initState subjects startDate) _ _));
    [| |done|].
  - intros i now sched m a s Hi _ [-> Hall] _ _. split; [done|].
    apply Forall_app. split; [done|]. apply host_block_Forall.
    + intros _. cbn [date studyItem]. rewrite toISODate_addDays. lia.
    + by intros day _ [=].
  - intros i now sched m a Hi [-> Hall]. split; [|done].
    rewrite steady_setDate by auto. rewrite addDays_addDays. f_equal. lia.
  - split; [unfold addDays; cbn; lia|constructor].
Qed.

Lemma X9_study_within_horizon_witness :
  Forall (fun it => type it = study ->
                    toISODate Examples.day0 <= date it
                    < toISODate Examples.day0 + Z.of_nat totalDaysToPlan)
    (OnHost.generateSchedule Examples.kolkataHost [Examples.solo]
       Examples.day0 6).
Proof. apply X9_study_within_horizon, steady_fixedOffset. Defined.

(** ** The merge step *)

(** X8.  [merge] of two lists that are each in order -- exam date ascending,
    difficulty descending on equal dates -- is in order and holds exactly
    the entries of both. *)
Theorem X8_merge_sorted left right :
  StronglySorted subjectLe left -> StronglySorted subjectLe right ->
  StronglySorted subjectLe (merge left right)
  /\ merge left right ≡ₚ left ++ right.
Proof.
  intros Hl Hr. split; [by apply merge_StronglySorted|apply merge_Permutation].
Qed.

Lemma X8_merge_sorted_witness :
  StronglySorted subjectLe (merge [Examples.shortB] [Examples.longA])
  /\ merge [Examples.shortB] [Examples.longA]
     ≡ₚ [Examples.shortB] ++ [Examples.longA].
Proof.
  apply X8_merge_sorted; repeat constructor.
Defined.
